(** * bruteforce-statistics: the log-to-statistics pipeline of [main.py]

    A shallow embedding of [get_known_ips] and [compute_stats] together with
    the library calls they rely on ([str.split], [str.splitlines],
    [re.search] / [re.match] on the patterns of the file,
    [datetime.strptime], [datetime.strftime], [collections.Counter],
    [sorted]).

    Text is modelled as [string], that is as sequences of 8-bit characters,
    and the character classes are those Python applies to ASCII text.  On
    text outside ASCII Python's [\w], [\d], [\s] and [str.split] consult
    the Unicode tables (its [\w] accepts an accented letter) and the model
    does not follow them: statements about the shape of what a class
    accepts are made for ASCII logs ([is_ascii]). *)

From Stdlib Require Import Ascii String List Arith Lia Sorted Permutation.
From stdpp Require Import base decidable option list sorting gmap strings.

Local Open Scope string_scope.
Local Open Scope list_scope.
Set Warnings "-abstract-large-number".

(** ** Character classes *)

Module Chars.

Definition code (c : ascii) : nat := nat_of_ascii c.

Definition between (lo hi : nat) (c : ascii) : bool :=
  (lo <=? code c)%nat && (code c <=? hi)%nat.

(** [\d] on ASCII text. *)
Definition is_digit (c : ascii) : bool := between 48 57 c.

Definition is_upper (c : ascii) : bool := between 65 90 c.
Definition is_lower (c : ascii) : bool := between 97 122 c.

(** [\w] on ASCII text: letters, digits and the underscore. *)
Definition is_word (c : ascii) : bool :=
  is_digit c || is_upper c || is_lower c || (code c =? 95)%nat.

(** Whitespace as [str.split()], [str.isspace] and [\s] see it below 128:
    TAB, LF, VT, FF, CR, the separators FS GS RS US, and the space. *)
Definition is_space (c : ascii) : bool :=
  between 9 13 c || between 28 31 c || (code c =? 32)%nat.

(** Line boundaries of [str.splitlines] below 128. *)
Definition is_linebreak (c : ascii) : bool :=
  between 10 13 c || between 28 30 c.

Definition lower (c : ascii) : ascii :=
  if is_upper c then ascii_of_nat (code c + 32) else c.

(** Equality of two characters under [re.IGNORECASE]. *)
Definition eqb_nocase (a b : ascii) : bool := Ascii.eqb (lower a) (lower b).

Definition digit_value (c : ascii) : nat := code c - 48.

End Chars.

(** ** Strings: [split], [join], [splitlines], [int] *)

Module Str.

Fixpoint rev_append (acc s : string) : string :=
  match acc with
  | EmptyString => s
  | String c acc' => rev_append acc' (String c s)
  end.

Definition rev (s : string) : string := rev_append s "".

(** [split_aux cur s]: [cur] is the token being read, reversed. *)
Fixpoint split_aux (cur : string) (s : string) : list string :=
  match s with
  | EmptyString =>
      match cur with EmptyString => [] | _ => [rev cur] end
  | String c s' =>
      if Chars.is_space c
      then match cur with
           | EmptyString => split_aux "" s'
           | _ => rev cur :: split_aux "" s'
           end
      else split_aux (String c cur) s'
  end.

(** [s.split()]: the maximal runs of non-whitespace characters. *)
Definition split (s : string) : list string := split_aux "" s.

(** [sep.join(l)]. *)
Fixpoint join (sep : string) (l : list string) : string :=
  match l with
  | [] => ""
  | [x] => x
  | x :: l' => x ++ sep ++ join sep l'
  end.

(** [splitlines_aux cur s]: [cur] is the line being read, reversed.  A
    carriage return followed by a line feed is one boundary. *)
Fixpoint splitlines_aux (cur : string) (s : string) : list string :=
  match s with
  | EmptyString =>
      match cur with EmptyString => [] | _ => [rev cur] end
  | String c s' =>
      if Chars.is_linebreak c
      then rev cur ::
           match s' with
           | String c' s'' =>
               if (Chars.code c =? 13)%nat && (Chars.code c' =? 10)%nat
               then splitlines_aux "" s''
               else splitlines_aux "" s'
           | EmptyString => []
           end
      else splitlines_aux (String c cur) s'
  end.

(** [s.splitlines()]. *)
Definition splitlines (s : string) : list string := splitlines_aux "" s.

(** [int(s)] for a string of decimal digits. *)
Fixpoint int_aux (acc : nat) (s : string) : nat :=
  match s with
  | EmptyString => acc
  | String c s' => int_aux (10 * acc + Chars.digit_value c) s'
  end.

Definition int (s : string) : nat := int_aux 0 s.

Fixpoint map_chars (f : ascii → ascii) (s : string) : string :=
  match s with
  | EmptyString => ""
  | String c s' => String (f c) (map_chars f s')
  end.

Definition lower (s : string) : string := map_chars Chars.lower s.

(** The first [n] characters of [s]. *)
Fixpoint take (n : nat) (s : string) : string :=
  match n, s with
  | S n', String c s' => String c (take n' s')
  | _, _ => ""
  end.

End Str.

(** ** Regular expressions

    The fragment of [re] the program uses: literals, character classes,
    concatenation, ordered alternation, greedy one-or-more of a class,
    greedy optional groups and named groups, matched by backtracking in
    the order Python's engine tries the alternatives. *)

Module Re.

Inductive regex : Type :=
  | Eps
  | Chr (p : ascii → bool)
  | Cat (r1 r2 : regex)
  | Alt (r1 r2 : regex)
  | Plus (p : ascii → bool)
  | Grp (name : string) (r : regex).

(** [(?: r)?], greedy. *)
Definition Opt (r : regex) : regex := Alt r Eps.

Fixpoint Lit (s : string) : regex :=
  match s with
  | EmptyString => Eps
  | String c s' => Cat (Chr (Ascii.eqb c)) (Lit s')
  end.

(** A literal under [re.IGNORECASE]. *)
Fixpoint LitI (s : string) : regex :=
  match s with
  | EmptyString => Eps
  | String c s' => Cat (Chr (Chars.eqb_nocase c)) (LitI s')
  end.

Fixpoint Cats (rs : list regex) : regex :=
  match rs with
  | [] => Eps
  | [r] => r
  | r :: rs' => Cat r (Cats rs')
  end.

Fixpoint Alts (rs : list regex) : regex :=
  match rs with
  | [] => Chr (λ _, false)
  | [r] => r
  | r :: rs' => Alt r (Alts rs')
  end.

(** The groups of a match, latest binding first. *)
Definition groups : Type := list (string * string).

Fixpoint group (name : string) (g : groups) : option string :=
  match g with
  | [] => None
  | (n, v) :: g' => if String.eqb name n then Some v else group name g'
  end.

Section Matcher.
Context {A : Type}.

(** Greedy [p+] at [s]: take one more character first, stop here when
    everything after a longer run fails. *)
Fixpoint plus (p : ascii → bool) (s : string)
    (k : string → option A) : option A :=
  match s with
  | EmptyString => None
  | String c s' =>
      if p c
      then match plus p s' k with
           | Some x => Some x
           | None => k s'
           end
      else None
  end.

(** [run r s g k]: match [r] at the start of [s] with the groups [g]
    bound so far, and hand the rest of the input to [k]; when [k] fails
    the next alternative is tried. *)
Fixpoint run (r : regex) (s : string) (g : groups)
    (k : string → groups → option A) : option A :=
  match r with
  | Eps => k s g
  | Chr p =>
      match s with
      | String c s' => if p c then k s' g else None
      | EmptyString => None
      end
  | Cat r1 r2 => run r1 s g (λ s' g', run r2 s' g' k)
  | Alt r1 r2 =>
      match run r1 s g k with
      | Some x => Some x
      | None => run r2 s g k
      end
  | Plus p => plus p s (λ s', k s' g)
  | Grp name r1 =>
      run r1 s g (λ s' g',
        k s' ((name, Str.take (String.length s - String.length s') s) :: g'))
  end.
End Matcher.

(** What a successful match reports: its groups and the unread input. *)
Record matched : Type := Matched { m_groups : groups; m_rest : string }.

(** [pat.match(s)]: anchored at the start of [s]. *)
Definition rmatch (r : regex) (s : string) : option matched :=
  run r s [] (λ s' g, Some (Matched g s')).

(** [pat.search(s)]: the match at the leftmost position that has one. *)
Fixpoint search (r : regex) (s : string) : option matched :=
  match rmatch r s with
  | Some m => Some m
  | None =>
      match s with
      | EmptyString => None
      | String _ s' => search r s'
      end
  end.

(** [binds n r]: every successful match of [r] sets the group [n]. *)
Fixpoint binds (n : string) (r : regex) : bool :=
  match r with
  | Grp m r1 => String.eqb n m || binds n r1
  | Cat r1 r2 => binds n r1 || binds n r2
  | Alt r1 r2 => binds n r1 && binds n r2
  | Eps | Chr _ | Plus _ => false
  end.

End Re.

(** ** The failure patterns of [main.py] *)

Definition ipv4 : Re.regex :=
  Re.Cats [Re.Plus Chars.is_digit; Re.Lit "."; Re.Plus Chars.is_digit; Re.Lit ".";
           Re.Plus Chars.is_digit; Re.Lit "."; Re.Plus Chars.is_digit].

(** [Failed password for (?P<user>\w+) from (?P<ip>\d+\.\d+\.\d+\.\d+)(?: port \d+)?] *)
Definition failed_password : Re.regex :=
  Re.Cats [Re.Lit "Failed password for "; Re.Grp "user" (Re.Plus Chars.is_word);
           Re.Lit " from "; Re.Grp "ip" ipv4;
           Re.Opt (Re.Cat (Re.Lit " port ") (Re.Plus Chars.is_digit))].

(** [Invalid user (?P<user>\w+) from (?P<ip>\d+\.\d+\.\d+\.\d+)] *)
Definition invalid_user : Re.regex :=
  Re.Cats [Re.Lit "Invalid user "; Re.Grp "user" (Re.Plus Chars.is_word);
           Re.Lit " from "; Re.Grp "ip" ipv4].

Definition PATTERNS : list Re.regex := [failed_password; invalid_user].

(** ** [datetime]: [strptime] and [strftime] *)

Module Datetime.

Record datetime : Type := Build {
  year : nat; month : nat; day : nat;
  hour : nat; minute : nat; second : nat
}.

Definition is_leap (y : nat) : bool :=
  (y mod 4 =? 0)%nat && (negb (y mod 100 =? 0)%nat || (y mod 400 =? 0)%nat).

Definition days_in_month (y m : nat) : nat :=
  match m with
  | 2 => if is_leap y then 29 else 28
  | 4 | 6 | 9 | 11 => 30
  | _ => 31
  end.

(** The constructor [datetime(y, m, d, H, M, S)]; [None] is [ValueError]. *)
Definition make (y m d hh mm ss : nat) : option datetime :=
  if (1 <=? y)%nat && (y <=? 9999)%nat
     && (1 <=? m)%nat && (m <=? 12)%nat
     && (1 <=? d)%nat && (d <=? days_in_month y m)%nat
     && (hh <=? 23)%nat && (mm <=? 59)%nat && (ss <=? 59)%nat
  then Some (Build y m d hh mm ss)
  else None.

(** Abbreviated month names of the C locale, lowered as [_strptime] keeps
    them. *)
Definition a_month : list string :=
  ["jan"; "feb"; "mar"; "apr"; "may"; "jun";
   "jul"; "aug"; "sep"; "oct"; "nov"; "dec"].

Fixpoint index_of (x : string) (l : list string) : option nat :=
  match l with
  | [] => None
  | y :: l' => if String.eqb x y then Some 0 else S <$> index_of x l'
  end.

Definition chr (c : ascii) : Re.regex := Re.Chr (Ascii.eqb c).
Definition rng (lo hi : nat) : Re.regex := Re.Chr (Chars.between lo hi).
Definition d09 : Re.regex := Re.Chr Chars.is_digit.

(** The directives of [_strptime.TimeRE]. *)
Definition re_b : Re.regex := Re.Grp "b" (Re.Alts (map Re.LitI a_month)).
(** [3[0-1]|[1-2]\d|0[1-9]|[1-9]| [1-9]] *)
Definition re_d : Re.regex :=
  Re.Grp "d" (Re.Alts [Re.Cat (chr "3") (rng 48 49); Re.Cat (rng 49 50) d09;
                       Re.Cat (chr "0") (rng 49 57); rng 49 57;
                       Re.Cat (chr " ") (rng 49 57)]).
(** [2[0-3]|[0-1]\d|\d] *)
Definition re_H : Re.regex :=
  Re.Grp "H" (Re.Alts [Re.Cat (chr "2") (rng 48 51); Re.Cat (rng 48 49) d09; d09]).
(** [[0-5]\d|\d] *)
Definition re_M : Re.regex :=
  Re.Grp "M" (Re.Alts [Re.Cat (rng 48 53) d09; d09]).
(** [6[0-1]|[0-5]\d|\d] *)
Definition re_S : Re.regex :=
  Re.Grp "S" (Re.Alts [Re.Cat (chr "6") (rng 48 49); Re.Cat (rng 48 53) d09; d09]).

(** The regular expression [_strptime] builds for ['%b %d %H:%M:%S']: every
    run of whitespace of the format becomes [\s+]. *)
Definition format_regex : Re.regex :=
  Re.Cats [re_b; Re.Plus Chars.is_space; re_d; Re.Plus Chars.is_space;
           re_H; chr ":"; re_M; chr ":"; re_S].

(** The year [_strptime] fills in when the format has no year directive. *)
Definition default_year : nat := 1900.

(** [datetime.strptime(s, '%b %d %H:%M:%S')]; [None] is [ValueError] (the
    string does not match the format, unconverted data remains, or the
    fields are no date: 29 February falls back to the default year before
    the constructor runs). *)
Definition strptime (s : string) : option datetime :=
  match Re.rmatch format_regex s with
  | None => None
  | Some m =>
      match Re.m_rest m with
      | String _ _ => None
      | EmptyString =>
          let g := Re.m_groups m in
          match Re.group "b" g, Re.group "d" g, Re.group "H" g,
                Re.group "M" g, Re.group "S" g with
          | Some b, Some d, Some hh, Some mm, Some ss =>
              match index_of (Str.lower b) a_month with
              | Some i => make default_year (i + 1) (Str.int d)
                               (Str.int hh) (Str.int mm) (Str.int ss)
              | None => None
              end
          | _, _, _, _, _ => None
          end
      end
  end.

Definition digit (n : nat) : ascii := ascii_of_nat (48 + n mod 10).

Definition pad2 (n : nat) : string :=
  String (digit (n / 10)) (String (digit n) "").

Definition pad4 (n : nat) : string :=
  String (digit (n / 1000)) (String (digit (n / 100)) (pad2 n)).

(** [dt.strftime('%Y-%m-%d %H:00')]. *)
Definition strftime (dt : datetime) : string :=
  pad4 (year dt) ++ "-" ++ pad2 (month dt) ++ "-" ++ pad2 (day dt)
    ++ " " ++ pad2 (hour dt) ++ ":00".

End Datetime.

(** ** [collections.Counter] and [sorted]

    A [Counter] is a [dict]: it keeps its keys in insertion order, which
    [most_common] observes. *)

Module Counter.

Definition t : Type := list (string * nat).

Definition empty : t := [].

(** [c[k] += 1]: a missing key counts as 0 and is appended; a present key
    keeps its place. *)
Fixpoint incr (k : string) (c : t) : t :=
  match c with
  | [] => [(k, 1)]
  | (k', n) :: c' =>
      if String.eqb k k' then (k', n + 1) :: c' else (k', n) :: incr k c'
  end.

Fixpoint get (k : string) (c : t) : nat :=
  match c with
  | [] => 0
  | (k', n) :: c' => if String.eqb k k' then n else get k c'
  end.

Definition total (c : list (string * nat)) : nat := sum_list (map snd c).

(** One step of a stable sort by descending count: [x] stood before every
    element of [l] and goes behind those with a strictly larger count. *)
Fixpoint insert_desc (x : string * nat) (l : list (string * nat)) :=
  match l with
  | [] => [x]
  | y :: l' =>
      if (snd x <? snd y)%nat then y :: insert_desc x l' else x :: l
  end.

(** [sorted(c.items(), key=itemgetter(1), reverse=True)] *)
Definition sorted_desc (c : t) : list (string * nat) :=
  foldr insert_desc [] c.

(** [c.most_common(n)], which is [heapq.nlargest(n, c.items(), key=itemgetter(1))]. *)
Definition most_common (n : nat) (c : t) : list (string * nat) :=
  take n (sorted_desc c).

(** [<] on the tuples [(key, count)]. *)
Definition item_ltb (x y : string * nat) : bool :=
  match String.compare (fst x) (fst y) with
  | Lt => true
  | Eq => (snd x <? snd y)%nat
  | Gt => false
  end.

Fixpoint insert_asc (x : string * nat) (l : list (string * nat)) :=
  match l with
  | [] => [x]
  | y :: l' => if item_ltb y x then y :: insert_asc x l' else x :: l
  end.

(** [sorted(c.items())] *)
Definition sorted_items (c : t) : list (string * nat) :=
  foldr insert_asc [] c.

End Counter.

(** ** The host the program observes *)

(** What [subprocess.check_output(['last', '-i'], ...)] meets. *)
Inductive cmd_result : Type :=
  | CmdMissing                                  (* FileNotFoundError *)
  | CmdError                                    (* any other failure to run it or to decode its output *)
  | CmdExit (status : nat) (output : string).   (* it ran and exited *)

(** The open log as the loop [for line in f] sees it: a line, the end of
    the file, or an exception raised by the read. *)
Inductive file_iter : Type :=
  | Eof
  | Line (line : string) (rest : file_iter)
  | ReadError.

Record world : Type := World {
  clock_year : nat;               (* the year of the wall clock *)
  last_i : cmd_result;            (* the session history command *)
  auth_log : option file_iter     (* [LOG_FILE]; [None]: [open] raises *)
}.

(** ** [get_known_ips] *)

(** [None] stands for the exception [check_output] raises: the command is
    missing, fails, or returns a non-zero exit status. *)
Definition check_output (r : cmd_result) : option string :=
  match r with
  | CmdExit 0 output => Some output
  | CmdExit (S _) _ => None
  | CmdMissing => None
  | CmdError => None
  end.

Definition known_ips_step (ips : gset string) (line : string) : gset string :=
  let parts := Str.split line in
  match parts !! 2 with
  | Some p =>
      match Re.rmatch ipv4 p with
      | Some _ => ips ∪ {[p]}
      | None => ips
      end
  | None => ips           (* [len(parts) < 3] *)
  end.

Definition get_known_ips (r : cmd_result) : gset string :=
  match check_output r with
  | None => ∅
  | Some output => foldl known_ips_step ∅ (Str.splitlines output)
  end.

(** ** [compute_stats] *)

Record counters : Type := Counters {
  user_counts : Counter.t;
  ip_counts : Counter.t;
  hourly_counts : Counter.t
}.

Definition no_counts : counters :=
  Counters Counter.empty Counter.empty Counter.empty.

(** Lines 50-59: the hour label of a line; [None] is [continue]. *)
Definition hour_label (line : string) : option string :=
  let parts := Str.split line in
  if (length parts <? 3)%nat then None
  else
    let timestamp_str := Str.join " " (take 3 parts) in
    match Datetime.strptime timestamp_str with
    | Some dt => Some (Datetime.strftime dt)
    | None => None
    end.

(** Lines 61-68: the body of [for pat in PATTERNS]. *)
Definition apply_pattern (known_ips : gset string) (line hour : string)
    (st : counters) (pat : Re.regex) : counters :=
  match Re.search pat line with
  | Some m =>
      match Re.group "ip" (Re.m_groups m), Re.group "user" (Re.m_groups m) with
      | Some ip, Some user =>
          if decide (ip ∈ known_ips) then st
          else Counters (Counter.incr user (user_counts st))
                        (Counter.incr ip (ip_counts st))
                        (Counter.incr hour (hourly_counts st))
      | _, _ => st        (* both groups take part in every match *)
      end
  | None => st
  end.

(** Lines 49-68: the body of [for line in f]. *)
Definition process_line (known_ips : gset string) (st : counters)
    (line : string) : counters :=
  match hour_label line with
  | None => st
  | Some hour => foldl (apply_pattern known_ips line hour) st PATTERNS
  end.

(** Lines 48-70: the loop over the file inside [try ... except Exception:
    pass].  The counters are updated in place, so when a read raises the
    handler leaves them as the lines read so far made them. *)
Fixpoint read_loop (known_ips : gset string) (st : counters)
    (f : file_iter) : counters :=
  match f with
  | Eof => st
  | Line line rest => read_loop known_ips (process_line known_ips st line) rest
  | ReadError => st
  end.

Record snapshot : Type := Snapshot {
  top_users : list (string * nat);     (* [{'user': u, 'count': c}] *)
  top_ips : list (string * nat);       (* [{'ip': ip, 'count': c}] *)
  hourly : list (string * nat)         (* [{'time': t, 'count': c}] *)
}.

(** Lines 72-76. *)
Definition views (st : counters) : snapshot :=
  Snapshot (Counter.most_common 10 (user_counts st))
           (Counter.most_common 10 (ip_counts st))
           (Counter.sorted_items (hourly_counts st)).

Definition compute_stats (w : world) : snapshot :=
  let known_ips := get_known_ips (last_i w) in
  let st :=
    match auth_log w with
    | Some f => read_loop known_ips no_counts f
    | None => no_counts          (* [open] raised: [except Exception: pass] *)
    end in
  views st.

(** ** The events of a log *)

(** A failure event: one match of one pattern on one line. *)
Record event : Type := Event {
  ev_user : string; ev_ip : string; ev_hour : string
}.

(** What a pattern reports on a line: the user and the address. *)
Definition pattern_event (pat : Re.regex) (line : string)
    : option (string * string) :=
  match Re.search pat line with
  | Some m =>
      match Re.group "ip" (Re.m_groups m), Re.group "user" (Re.m_groups m) with
      | Some ip, Some user => Some (user, ip)
      | _, _ => None
      end
  | None => None
  end.

Definition pattern_events (line hour : string) (pats : list Re.regex)
    : list event :=
  omap (λ pat, (λ ui, Event ui.1 ui.2 hour) <$> pattern_event pat line) pats.

(** The events of a line, one per pattern that matches, in pattern order. *)
Definition line_events (line : string) : list event :=
  match hour_label line with
  | Some hour => pattern_events line hour PATTERNS
  | None => []
  end.

Definition counted (known_ips : gset string) (e : event) : bool :=
  bool_decide (ev_ip e ∉ known_ips).

Definition count_event (st : counters) (e : event) : counters :=
  Counters (Counter.incr (ev_user e) (user_counts st))
           (Counter.incr (ev_ip e) (ip_counts st))
           (Counter.incr (ev_hour e) (hourly_counts st)).

(** The lines the loop gets to see. *)
Fixpoint lines_read (f : file_iter) : list string :=
  match f with
  | Eof => []
  | Line line rest => line :: lines_read rest
  | ReadError => []
  end.

(** The events that are counted: those of the lines read whose address
    is not a known one. *)
Definition counted_events (known_ips : gset string) (lines : list string)
    : list event :=
  filter (λ e, counted known_ips e = true) (lines ≫= line_events).

(** ** Notions the statements below use *)

(** The counter that results from counting [keys] one after the other,
    starting from [c]. *)
Definition count_keys (c : Counter.t) (keys : list string) : Counter.t :=
  foldl (λ c k, Counter.incr k c) c keys.


(** How often [k] occurs in [keys]. *)
Definition occurrences (k : string) (keys : list string) : nat :=
  length (filter (λ k', k' = k) keys).

(** The strict order of [str]: character by character, by code. *)
Definition str_lt (a b : string) : Prop := String.compare a b = Lt.


(** Ascending by key, strictly. *)
Definition by_key_asc (x y : string * nat) : Prop := str_lt x.1 y.1.

(** The events a run counts. *)
Definition events_of (w : world) : list event :=
  match auth_log w with
  | Some f => counted_events (get_known_ips (last_i w)) (lines_read f)
  | None => []
  end.

(** Whether [pat] reports, on [line], a failure from an address that is not
    a known one. *)
Definition reports (known_ips : gset string) (line : string)
    (pat : Re.regex) : bool :=
  match Re.search pat line with
  | Some m =>
      match Re.group "ip" (Re.m_groups m) with
      | Some ip => bool_decide (ip ∉ known_ips)
      | None => false
      end
  | None => false
  end.

(** The number of patterns that report such a failure on [line]. *)
Definition hits (known_ips : gset string) (line : string) : nat :=
  length (filter (λ pat, reports known_ips line pat = true) PATTERNS).

(** The empty snapshot. *)
Definition no_data : snapshot := Snapshot [] [] [].

(** A log file that yields [lines] and then ends as [ending] says. *)
Definition log_of (lines : list string) (ending : file_iter) : file_iter :=
  foldr Line ending lines.

(** ** Sample input *)

(** A failed password on 22 June, 08:15:20. *)
Definition line_failed : string :=
  "Jun 22 08:15:20 host sshd: Failed password for root from 10.0.0.5 port 2222".

(** A line that both patterns match. *)
Definition line_both : string :=
  "Jun 22 08:15:20 host sshd: Failed password for root from 10.0.0.5 port 22 Invalid user root from 10.0.0.5".

(** A failed password dated 29 February: the timestamp has the form the
    format asks for, but 1900 has no such day. *)
Definition line_feb29 : string :=
  "Feb 29 08:15:20 host sshd: Failed password for root from 10.0.0.5 port 22".

(** A session record of [last -i] for 10.0.0.5. *)
Definition last_record : string :=
  "root     pts/0        10.0.0.5         Sat Jun 22 07:58   still logged in".

(** The label [strftime] would give [dt] in the year [y]. *)
Definition label_in_year (y : nat) (dt : Datetime.datetime) : string :=
  Datetime.strftime
    (Datetime.Build y (Datetime.month dt) (Datetime.day dt)
       (Datetime.hour dt) (Datetime.minute dt) (Datetime.second dt)).

(** The labels of the default year: [1900-MM-DD HH:00]. *)
Definition default_year_label (label : string) : Prop :=
  ∃ m d h, (1 ≤ m ≤ 12)%nat ∧ (1 ≤ d ≤ 31)%nat ∧ (h ≤ 23)%nat
    ∧ label = ("1900-" ++ Datetime.pad2 m ++ "-" ++ Datetime.pad2 d
                 ++ " " ++ Datetime.pad2 h ++ ":00")%string.

(** The line feed. *)
Definition LF : string := String (ascii_of_nat 10) "".


(** ** The words a pattern accepts *)

(** Whether every character of [s] is in the class [p]. *)
Fixpoint all_chars (p : ascii → bool) (s : string) : bool :=
  match s with
  | EmptyString => true
  | String c s' => p c && all_chars p s'
  end.

(** A non-empty run of characters of the class [p]: what [p+] consumes. *)
Definition run_of (p : ascii → bool) (s : string) : bool :=
  match s with
  | EmptyString => false
  | String _ _ => all_chars p s
  end.

(** [lang r w]: [w] is a text the expression [r] can consume. *)
Inductive lang : Re.regex → string → Prop :=
  | lang_eps : lang Re.Eps ""
  | lang_chr p c : p c = true → lang (Re.Chr p) (String c "")
  | lang_cat r1 r2 w1 w2 :
      lang r1 w1 → lang r2 w2 → lang (Re.Cat r1 r2) (w1 ++ w2)%string
  | lang_alt_l r1 r2 w : lang r1 w → lang (Re.Alt r1 r2) w
  | lang_alt_r r1 r2 w : lang r2 w → lang (Re.Alt r1 r2) w
  | lang_plus p w : run_of p w = true → lang (Re.Plus p) w
  | lang_grp n r w : lang r w → lang (Re.Grp n r) w.

(** Every group [n] inside [r] captures a text that satisfies [Q n]. *)
Fixpoint groups_in (Q : string → string → Prop) (r : Re.regex) : Prop :=
  match r with
  | Re.Grp n r1 => (∀ w, lang r1 w → Q n w) ∧ groups_in Q r1
  | Re.Cat r1 r2 | Re.Alt r1 r2 => groups_in Q r1 ∧ groups_in Q r2
  | Re.Eps | Re.Chr _ | Re.Plus _ => True
  end.

(** [\d+\.\d+\.\d+\.\d+]: four runs of digits with dots between them. *)
Definition dotted_quad (s : string) : Prop :=
  ∃ a b c d,
    run_of Chars.is_digit a = true ∧ run_of Chars.is_digit b = true
    ∧ run_of Chars.is_digit c = true ∧ run_of Chars.is_digit d = true
    ∧ s = (a ++ "." ++ b ++ "." ++ c ++ "." ++ d)%string.

(** What the groups of the two failure patterns hold: a user is a run of
    word characters, an address a dotted quad. *)
Definition capture_shape (n v : string) : Prop :=
  (n = "user" → run_of Chars.is_word v = true)
  ∧ (n = "ip" → dotted_quad v).

(** The labels of days that exist in the calendar of the default year. *)
Definition calendar_label (label : string) : Prop :=
  ∃ m d h, (1 ≤ m ≤ 12)%nat
    ∧ (1 ≤ d ≤ Datetime.days_in_month Datetime.default_year m)%nat
    ∧ (h ≤ 23)%nat
    ∧ label = ("1900-" ++ Datetime.pad2 m ++ "-" ++ Datetime.pad2 d
                 ++ " " ++ Datetime.pad2 h ++ ":00")%string.

(** ** The summary cards of the page (the script in [TEMPLATE]) *)

(** The three numbers [renderSummary] writes into the cards.  Numbers of
    the script are doubles; the counts are integers, and their sum is exact
    as long as it stays below 2^53. *)
Record summary : Type := Summary {
  totalFails : nat;      (* [data.top_users.reduce((sum, u) => sum + u.count, 0)] *)
  uniqueIPs : nat;       (* [data.top_ips.length] *)
  hours : nat            (* [data.hourly.length] *)
}.

Definition renderSummary (data : snapshot) : summary :=
  Summary (foldl (λ sum u, sum + u.2)%nat 0%nat (top_users data))
          (length (top_ips data))
          (length (hourly data)).

(** ** Matches with their groups *)

(** [matches r w g g']: [r] can consume the text [w], and doing so turns the
    groups [g] into [g']: every group met on the way is bound to the text
    its sub-expression consumed. *)
Inductive matches : Re.regex → string → Re.groups → Re.groups → Prop :=
  | matches_eps g : matches Re.Eps "" g g
  | matches_chr p c g : p c = true → matches (Re.Chr p) (String c "") g g
  | matches_cat r1 r2 w1 w2 g g1 g2 :
      matches r1 w1 g g1 → matches r2 w2 g1 g2 →
      matches (Re.Cat r1 r2) (w1 ++ w2)%string g g2
  | matches_alt_l r1 r2 w g g' : matches r1 w g g' → matches (Re.Alt r1 r2) w g g'
  | matches_alt_r r1 r2 w g g' : matches r2 w g g' → matches (Re.Alt r1 r2) w g g'
  | matches_plus p w g : run_of p w = true → matches (Re.Plus p) w g g
  | matches_grp n r w g g' :
      matches r w g g' → matches (Re.Grp n r) w g ((n, w) :: g').

(** ** Runs inside one process

    [compute_stats] again, with the objects of the Python process made
    explicit: what a call creates and updates lives in the process and is
    still there when the next call starts. *)

(** The [Counter] objects of the process, by identity, and the identity
    the next new object gets. *)
Record process : Type := Process {
  next_id : nat;
  objects : gmap nat Counter.t
}.

(** [Counter()]: a new object, empty whatever the process holds. *)
Definition new_counter (p : process) : nat * process :=
  (next_id p,
   Process (S (next_id p)) (<[next_id p := Counter.empty]> (objects p))).

(** [c[k] += 1] on the object [id]. *)
Definition incr_object (id : nat) (k : string) (p : process) : process :=
  Process (next_id p) (alter (Counter.incr k) id (objects p)).

(** The content of the object [id]. *)
Definition object (id : nat) (p : process) : Counter.t :=
  default Counter.empty (objects p !! id).

(** Lines 61-68 on the objects [users], [ips], [hours]. *)
Definition run_pattern (known_ips : gset string) (users ips hours : nat)
    (line hour : string) (p : process) (pat : Re.regex) : process :=
  match Re.search pat line with
  | Some m =>
      match Re.group "ip" (Re.m_groups m), Re.group "user" (Re.m_groups m) with
      | Some ip, Some user =>
          if decide (ip ∈ known_ips) then p
          else incr_object hours hour
                 (incr_object ips ip (incr_object users user p))
      | _, _ => p
      end
  | None => p
  end.

(** Lines 49-68 on the objects. *)
Definition run_line (known_ips : gset string) (users ips hours : nat)
    (p : process) (line : string) : process :=
  match hour_label line with
  | None => p
  | Some hour => foldl (run_pattern known_ips users ips hours line hour) p PATTERNS
  end.

(** Lines 48-70 on the objects; [f] is the file object [open] returned,
    which starts at the first line of the log in every call. *)
Fixpoint run_loop (known_ips : gset string) (users ips hours : nat)
    (p : process) (f : file_iter) : process :=
  match f with
  | Eof => p
  | Line line rest =>
      run_loop known_ips users ips hours
        (run_line known_ips users ips hours p line) rest
  | ReadError => p
  end.

(** One call of [compute_stats] in the process [p]: the snapshot it returns
    and the process it leaves behind. *)
Definition compute_stats_in (w : world) (p : process) : snapshot * process :=
  let known_ips := get_known_ips (last_i w) in
  let '(user_counts, p1) := new_counter p in
  let '(ip_counts, p2) := new_counter p1 in
  let '(hourly_counts, p3) := new_counter p2 in
  let p4 :=
    match auth_log w with
    | Some f => run_loop known_ips user_counts ip_counts hourly_counts p3 f
    | None => p3
    end in
  (Snapshot (Counter.most_common 10 (object user_counts p4))
            (Counter.most_common 10 (object ip_counts p4))
            (Counter.sorted_items (object hourly_counts p4)),
   p4).

(** The three objects of a call, read as the counters of [compute_stats]. *)
Definition locals (users ips hours : nat) (p : process) : counters :=
  Counters (object users p) (object ips p) (object hours p).

(** The three objects of a call exist and are three. *)
Definition live (users ips hours : nat) (p : process) : Prop :=
  users ≠ ips ∧ users ≠ hours ∧ ips ≠ hours
  ∧ is_Some (objects p !! users) ∧ is_Some (objects p !! ips)
  ∧ is_Some (objects p !! hours).

(** Whether [s] is ASCII text: every character has a code below 128. *)
Definition is_ascii (s : string) : bool :=
  all_chars (λ c, (Chars.code c <? 128)%nat) s.

(** * Properties *)

Local Open Scope nat_scope.

(** ** The groups of a successful match *)

Module ReFacts.
Import Re.

Lemma plus_inv {A} p s (k : string → option A) x :
  plus p s k = Some x → ∃ s', k s' = Some x.
Proof.
  induction s as [|c s IH]; simpl; [done|].
  destruct (p c); [|done].
  destruct (plus p s k) eqn:E; [|by eauto].
  intros [= ->]. by apply IH.
Qed.

Lemma run_inv {A} r s g (k : string → groups → option A) x :
  run r s g k = Some x →
  ∃ s' g', k s' g' = Some x
    ∧ (∀ n, is_Some (group n g) → is_Some (group n g'))
    ∧ (∀ n, binds n r = true → is_Some (group n g')).
Proof.
  revert s g k. induction r as [|p|r1 IH1 r2 IH2|r1 IH1 r2 IH2|p|m r1 IH1];
    intros s g k; simpl.
  - intros Hk. exists s, g. by repeat split.
  - destruct s as [|c s]; [done|]. destruct (p c); [|done].
    intros Hk. exists s, g. by repeat split.
  - intros (s1 & g1 & H2 & Hext1 & Hb1)%IH1.
    apply IH2 in H2 as (s2 & g2 & Hk & Hext2 & Hb2).
    exists s2, g2. repeat split; [done|by auto|].
    intros n [?|?]%orb_true_iff; auto.
  - destruct (run r1 s g k) eqn:E.
    + intros [= ->]. apply IH1 in E as (s1 & g1 & Hk & Hext & Hb).
      exists s1, g1. repeat split; [done..|].
      intros n [??]%andb_true_iff; auto.
    + intros (s1 & g1 & Hk & Hext & Hb)%IH2.
      exists s1, g1. repeat split; [done..|].
      intros n [??]%andb_true_iff; auto.
  - intros (s' & Hk)%plus_inv. exists s', g. by repeat split.
  - intros (s1 & g1 & Hk & Hext & Hb)%IH1. eexists _, _. split; [exact Hk|].
    split.
    + intros n Hn. simpl. destruct (String.eqb n m); [by eauto|by auto].
    + intros n Hn. simpl. destruct (String.eqb n m); [by eauto|].
      simpl in Hn. by auto.
Qed.

Lemma rmatch_group r s m n :
  binds n r = true → rmatch r s = Some m → is_Some (group n (m_groups m)).
Proof.
  intros Hb (s' & g' & [= <-] & _ & Hg)%run_inv. by apply Hg.
Qed.

Lemma search_group r s m n :
  binds n r = true → search r s = Some m → is_Some (group n (m_groups m)).
Proof.
  intros Hb. induction s as [|c s IH]; simpl.
  - destruct (rmatch r "") eqn:E; [|done].
    intros [= <-]. by eapply rmatch_group.
  - destruct (rmatch r (String c s)) eqn:E; [|done].
    intros [= <-]. by eapply rmatch_group.
Qed.

End ReFacts.

(** Both patterns set [user] and [ip] whenever they match. *)
Lemma PATTERNS_bind pat :
  pat ∈ PATTERNS →
  Re.binds "user" pat = true ∧ Re.binds "ip" pat = true.
Proof.
  unfold PATTERNS. rewrite !elem_of_cons, elem_of_nil.
  intros [->|[->|[]]]; by vm_compute.
Qed.

(** ** The loop as a fold over events *)

Lemma pattern_event_is_Some pat line :
  pat ∈ PATTERNS →
  is_Some (pattern_event pat line) ↔ is_Some (Re.search pat line).
Proof.
  intros [Hu Hi]%PATTERNS_bind. unfold pattern_event.
  destruct (Re.search pat line) as [m|] eqn:E; [|by split; intros []].
  destruct (ReFacts.search_group _ _ _ _ Hu E) as [u ->].
  destruct (ReFacts.search_group _ _ _ _ Hi E) as [i ->].
  split; eauto.
Qed.

Lemma apply_pattern_events known line hour st pats :
  foldl (apply_pattern known line hour) st pats
  = foldl count_event st
      (filter (λ e, counted known e = true) (pattern_events line hour pats)).
Proof.
  revert st. induction pats as [|pat pats IH]; intros st; [done|].
  simpl. rewrite IH. unfold pattern_events at 2. simpl.
  unfold apply_pattern, pattern_event.
  destruct (Re.search pat line) as [m|]; [|done].
  destruct (Re.group "ip" (Re.m_groups m)) as [ip|]; [|done].
  destruct (Re.group "user" (Re.m_groups m)) as [user|]; [|done].
  simpl. rewrite filter_cons.
  destruct (decide (ip ∈ known)) as [Hin|Hin].
  - rewrite decide_False; [done|].
    unfold counted. simpl. rewrite bool_decide_eq_true. tauto.
  - rewrite decide_True; [done|].
    unfold counted. simpl. by rewrite bool_decide_eq_true.
Qed.

Lemma process_line_events known st line :
  process_line known st line
  = foldl count_event st
      (filter (λ e, counted known e = true) (line_events line)).
Proof.
  unfold process_line, line_events. destruct (hour_label line); [|done].
  apply apply_pattern_events.
Qed.

Lemma read_loop_events known st f :
  read_loop known st f
  = foldl count_event st (counted_events known (lines_read f)).
Proof.
  revert st. induction f as [|line rest IH|]; intros st; [done| |done].
  simpl. rewrite IH, process_line_events. unfold counted_events. simpl.
  by rewrite filter_app, foldl_app.
Qed.

(** ** Counters *)

Module CounterFacts.
Import Counter.

Lemma eqb_decide (a b : string) :
  String.eqb a b = bool_decide (a = b).
Proof.
  destruct (String.eqb_spec a b).
  - by rewrite bool_decide_eq_true_2.
  - by rewrite bool_decide_eq_false_2.
Qed.

Lemma keys_incr k (c : t) :
  (incr k c).*1 = if decide (k ∈ c.*1) then c.*1 else c.*1 ++ [k].
Proof.
  induction c as [|[k' n] c IH].
  - destruct (decide (k ∈ ([] : t).*1)) as [H|H]; [|done].
    by apply elem_of_nil in H.
  - cbn [incr]. rewrite eqb_decide. case_bool_decide as Heq.
    + subst k'. rewrite !fmap_cons. cbn [fst].
      rewrite decide_True; [done|]. apply elem_of_cons; by left.
    + rewrite !fmap_cons, IH. cbn [fst].
      destruct (decide (k ∈ c.*1)) as [Hin|Hin].
      * rewrite decide_True; [done|]. apply elem_of_cons; by right.
      * rewrite decide_False; [done|]. rewrite elem_of_cons. tauto.
Qed.

Lemma NoDup_incr k (c : t) : NoDup c.*1 → NoDup (incr k c).*1.
Proof.
  intros Hc. rewrite keys_incr. destruct (decide (k ∈ c.*1)); [done|].
  apply NoDup_app. split; [done|]. split; [|apply NoDup_singleton].
  intros x Hx ->%list_elem_of_singleton. done.
Qed.

Lemma total_incr k (c : t) : total (incr k c) = S (total c).
Proof.
  unfold total. induction c as [|[k' n] c IH]; simpl; [done|].
  destruct (String.eqb k k'); simpl; [lia|]. rewrite IH. lia.
Qed.

Lemma get_incr k k' (c : t) :
  get k (incr k' c) = if decide (k = k') then S (get k c) else get k c.
Proof.
  induction c as [|[k0 n] c IH]; simpl.
  - rewrite eqb_decide. by case_bool_decide; case_decide.
  - rewrite !eqb_decide.
    destruct (decide (k' = k0)) as [->|Hne].
    + rewrite bool_decide_eq_true_2 by done. simpl. rewrite eqb_decide.
      case_bool_decide; case_decide; try done; lia.
    + rewrite (bool_decide_eq_false_2 (k' = k0)) by done. simpl.
      rewrite eqb_decide, IH.
      case_bool_decide; case_decide; try done; congruence.
Qed.

Lemma positive_incr k (c : t) :
  Forall (λ x : string * nat, (1 ≤ x.2)%nat) c → Forall (λ x : string * nat, (1 ≤ x.2)%nat) (incr k c).
Proof.
  induction 1 as [|[k' n] c Hn Hc IH]; simpl.
  - repeat constructor.
  - destruct (String.eqb k k'); constructor; simpl in *; auto; lia.
Qed.

Lemma elem_of_get k n (c : t) :
  NoDup c.*1 → (k, n) ∈ c → get k c = n.
Proof.
  induction c as [|[k' n'] c IH]; simpl.
  - intros _ []%elem_of_nil.
  - intros [Hnotin Hnd]%NoDup_cons [[= -> ->]|Hin]%elem_of_cons.
    + by rewrite String.eqb_refl.
    + rewrite eqb_decide. case_bool_decide as Heq; [|by auto].
      subst k'. destruct Hnotin. apply list_elem_of_fmap. by exists (k, n).
Qed.

End CounterFacts.

(** ** Counting a sequence of keys *)

Lemma count_keys_snoc c keys k :
  count_keys c (keys ++ [k]) = Counter.incr k (count_keys c keys).
Proof. unfold count_keys. by rewrite foldl_app. Qed.

Lemma count_keys_NoDup c keys : NoDup c.*1 → NoDup (count_keys c keys).*1.
Proof.
  intros Hc. induction keys as [|k keys IH] using rev_ind; [done|].
  rewrite count_keys_snoc. by apply CounterFacts.NoDup_incr.
Qed.

Lemma count_keys_total c keys :
  Counter.total (count_keys c keys) = Counter.total c + length keys.
Proof.
  induction keys as [|k keys IH] using rev_ind; [simpl; lia|].
  rewrite count_keys_snoc, CounterFacts.total_incr, IH, length_app. simpl. lia.
Qed.

Lemma count_keys_positive c keys :
  Forall (λ x : string * nat, (1 ≤ x.2)%nat) c → Forall (λ x : string * nat, (1 ≤ x.2)%nat) (count_keys c keys).
Proof.
  intros Hc. induction keys as [|k keys IH] using rev_ind; [done|].
  rewrite count_keys_snoc. by apply CounterFacts.positive_incr.
Qed.

Lemma count_keys_get c keys k :
  Counter.get k (count_keys c keys) = Counter.get k c + occurrences k keys.
Proof.
  unfold occurrences.
  induction keys as [|k' keys IH] using rev_ind; [simpl; lia|].
  rewrite count_keys_snoc, CounterFacts.get_incr, IH, filter_app, length_app.
  rewrite filter_cons, filter_nil.
  destruct (decide (k = k')) as [->|Hne].
  - rewrite decide_True by done. simpl. lia.
  - rewrite decide_False by congruence. simpl. lia.
Qed.

Lemma count_keys_keys keys k :
  k ∈ (count_keys Counter.empty keys).*1 ↔ k ∈ keys.
Proof.
  induction keys as [|k' keys IH] using rev_ind; [done|].
  rewrite count_keys_snoc, CounterFacts.keys_incr, elem_of_app, list_elem_of_singleton.
  destruct (decide (k' ∈ (count_keys Counter.empty keys).*1)) as [Hin|Hin].
  - rewrite IH. split; [tauto|]. intros [?| ->]; [done|]. by apply IH.
  - rewrite elem_of_app, list_elem_of_singleton, IH. done.
Qed.






(** ** The order of strings *)

Lemma ascii_compare_trans (a b c : ascii) :
  Ascii.compare a b = Lt → Ascii.compare b c = Lt → Ascii.compare a c = Lt.
Proof.
  unfold Ascii.compare. rewrite !N.compare_lt_iff. lia.
Qed.

Lemma str_lt_trans (a b c : string) : str_lt a b → str_lt b c → str_lt a c.
Proof.
  unfold str_lt. revert b c.
  induction a as [|x a IH]; intros [|y b] [|z c]; simpl; try done.
  destruct (Ascii.compare x y) eqn:Hxy; try done.
  - apply Ascii.compare_eq_iff in Hxy as ->.
    destruct (Ascii.compare y z); try done. apply IH.
  - destruct (Ascii.compare y z) eqn:Hyz; try done.
    + apply Ascii.compare_eq_iff in Hyz as <-. by rewrite Hxy.
    + by rewrite (ascii_compare_trans _ _ _ Hxy Hyz).
Qed.

Lemma str_lt_flip (a b : string) : String.compare a b = Gt → str_lt b a.
Proof.
  unfold str_lt. intros H. rewrite String.compare_antisym, H. done.
Qed.

(** ** The two sorts *)

Module SortFacts.
Import Counter.

Lemma insert_desc_perm x l : insert_desc x l ≡ₚ x :: l.
Proof.
  induction l as [|y l IH]; simpl; [done|].
  destruct (x.2 <? y.2)%nat; [|done]. rewrite IH. apply Permutation_swap.
Qed.

Lemma sorted_desc_perm (c : t) : sorted_desc c ≡ₚ c.
Proof.
  induction c as [|x c IH]; simpl; [done|].
  by rewrite insert_desc_perm, IH.
Qed.





Lemma insert_asc_perm x l : insert_asc x l ≡ₚ x :: l.
Proof.
  induction l as [|y l IH]; simpl; [done|].
  destruct (item_ltb y x); [|done]. rewrite IH. apply Permutation_swap.
Qed.

Lemma sorted_items_perm (c : t) : sorted_items c ≡ₚ c.
Proof.
  induction c as [|x c IH]; simpl; [done|].
  by rewrite insert_asc_perm, IH.
Qed.

Lemma insert_asc_sorted x l :
  x.1 ∉ l.*1 →
  StronglySorted by_key_asc l → StronglySorted by_key_asc (insert_asc x l).
Proof.
  intros Hx Hl. induction Hl as [|y l Hl IH Hy]; simpl.
  - repeat constructor.
  - rewrite fmap_cons, not_elem_of_cons in Hx. destruct Hx as [Hne Hx].
    unfold item_ltb. destruct (String.compare y.1 x.1) eqn:Hc.
    + apply String.compare_eq_iff in Hc. congruence.
    + constructor; [by auto|]. rewrite insert_asc_perm. by constructor.
    + apply str_lt_flip in Hc.
      constructor; [by constructor|]. constructor; [done|].
      eapply Forall_impl; [exact Hy|]. intros z Hz. by eapply str_lt_trans.
Qed.

Lemma sorted_items_sorted (c : t) :
  NoDup c.*1 → StronglySorted by_key_asc (sorted_items c).
Proof.
  induction c as [|x c IH]; simpl; [constructor|].
  intros [Hx Hc]%NoDup_cons. apply insert_asc_sorted; [|by auto].
  by rewrite (sorted_items_perm c).
Qed.

End SortFacts.

(** ** The counters of a run *)

Lemma foldl_count_event st es :
  foldl count_event st es
  = Counters (count_keys (user_counts st) (ev_user <$> es))
             (count_keys (ip_counts st) (ev_ip <$> es))
             (count_keys (hourly_counts st) (ev_hour <$> es)).
Proof.
  revert st. induction es as [|e es IH]; intros st; [by destruct st|].
  simpl. by rewrite IH.
Qed.

Lemma compute_stats_events w :
  compute_stats w
  = Snapshot
      (Counter.most_common 10 (count_keys Counter.empty (ev_user <$> events_of w)))
      (Counter.most_common 10 (count_keys Counter.empty (ev_ip <$> events_of w)))
      (Counter.sorted_items (count_keys Counter.empty (ev_hour <$> events_of w))).
Proof.
  unfold compute_stats, events_of, views.
  destruct (auth_log w) as [f|]; [|done].
  by rewrite read_loop_events, foldl_count_event.
Qed.

Lemma pattern_events_hour line hour pats e :
  e ∈ pattern_events line hour pats → ev_hour e = hour.
Proof.
  unfold pattern_events. rewrite list_elem_of_omap.
  intros (pat & _ & Hp). destruct (pattern_event pat line); by simplify_eq/=.
Qed.

Lemma line_events_hour line e :
  e ∈ line_events line → hour_label line = Some (ev_hour e).
Proof.
  unfold line_events. destruct (hour_label line) as [hour|].
  - by intros ->%pattern_events_hour.
  - by intros ?%elem_of_nil.
Qed.

Lemma pattern_events_cons line hour pat pats :
  pattern_events line hour (pat :: pats)
  = match pattern_event pat line with
    | Some ui => Event ui.1 ui.2 hour :: pattern_events line hour pats
    | None => pattern_events line hour pats
    end.
Proof.
  unfold pattern_events. simpl. by destruct (pattern_event pat line).
Qed.

Lemma reports_pattern_event known line pat :
  Re.binds "user" pat = true →
  reports known line pat
  = match pattern_event pat line with
    | Some ui => bool_decide (ui.2 ∉ known)
    | None => false
    end.
Proof.
  intros Hb. unfold reports, pattern_event.
  destruct (Re.search pat line) as [m|] eqn:E; [|done].
  destruct (ReFacts.search_group _ _ _ "user" Hb E) as [u ->].
  by destruct (Re.group "ip" (Re.m_groups m)).
Qed.

Lemma pattern_events_hits known line hour pats :
  (∀ pat, pat ∈ pats → Re.binds "user" pat = true) →
  length (filter (λ e, counted known e = true) (pattern_events line hour pats))
  = length (filter (λ pat, reports known line pat = true) pats).
Proof.
  induction pats as [|pat pats IH]; intros Hb; [done|].
  assert (length (filter (λ e, counted known e = true) (pattern_events line hour pats))
          = length (filter (λ pat, reports known line pat = true) pats)) as IH'.
  { apply IH. intros p Hp. apply Hb. by right. }
  rewrite pattern_events_cons, (filter_cons _ pat).
  pose proof (reports_pattern_event known line pat (Hb pat ltac:(by left))) as Hr.
  destruct (pattern_event pat line) as [ui|].
  - rewrite filter_cons. unfold counted at 1. simpl.
    destruct (decide (bool_decide (ui.2 ∉ known) = true)) as [Hd|Hd];
      destruct (decide (reports known line pat = true)) as [Hd'|Hd'];
      simpl; congruence.
  - destruct (decide (reports known line pat = true)) as [Hd'|Hd']; [congruence|done].
Qed.

Lemma line_events_hits known line hour :
  hour_label line = Some hour →
  length (filter (λ e, counted known e = true) (line_events line))
  = hits known line.
Proof.
  intros Hh. unfold line_events, hits. rewrite Hh.
  apply pattern_events_hits. intros pat Hp. by apply PATTERNS_bind.
Qed.

Lemma occurrences_all k keys :
  Forall (λ k', k' = k) keys → occurrences k keys = length keys.
Proof.
  unfold occurrences. induction 1 as [|k' keys -> _ IH]; [done|].
  rewrite filter_cons, decide_True by done. simpl. by rewrite IH.
Qed.

(** ** Claims *)

(** C1 (as the code has it): on a line with a timestamp every pattern of
    [PATTERNS] that matches with an address outside the allowlist adds one
    to the user, address and hour counters, so the counters move by the
    number of matching patterns: by one when a single pattern matches, by
    two when both do. *)
Theorem process_line_counts_each_match known st line hour :
  hour_label line = Some hour →
  let st' := process_line known st line in
  let n := hits known line in
  Counter.total (user_counts st') = Counter.total (user_counts st) + n
  ∧ Counter.total (ip_counts st') = Counter.total (ip_counts st) + n
  ∧ Counter.total (hourly_counts st') = Counter.total (hourly_counts st) + n
  ∧ Counter.get hour (hourly_counts st') = Counter.get hour (hourly_counts st) + n.
Proof.
  intros Hh st' n. subst st' n.
  rewrite process_line_events, foldl_count_event. simpl.
  rewrite !count_keys_total, count_keys_get, !length_fmap.
  rewrite occurrences_all.
  - rewrite length_fmap, (line_events_hits _ _ _ Hh). done.
  - apply Forall_fmap, Forall_forall. intros e [_ He]%list_elem_of_filter.
    apply line_events_hour in He. simpl. congruence.
Qed.

(** The theorem at [line_both] with an empty allowlist: two patterns hit. *)
Lemma process_line_counts_each_match_witness :
  hour_label line_both = Some "1900-06-22 08:00"
  ∧ hits ∅ line_both = 2
  ∧ let st' := process_line ∅ no_counts line_both in
    let n := hits ∅ line_both in
    Counter.total (user_counts st') = Counter.total (user_counts no_counts) + n
    ∧ Counter.total (ip_counts st') = Counter.total (ip_counts no_counts) + n
    ∧ Counter.total (hourly_counts st') = Counter.total (hourly_counts no_counts) + n
    ∧ Counter.get "1900-06-22 08:00" (hourly_counts st')
      = Counter.get "1900-06-22 08:00" (hourly_counts no_counts) + n.
Proof.
  split; [by vm_compute|]. split; [by vm_compute|].
  apply (process_line_counts_each_match ∅ no_counts line_both "1900-06-22 08:00").
  by vm_compute.
Defined.

(** C1, as stated, fails: [line_both] matches the 'Failed password' and
    the 'Invalid user' pattern, and the loop over [PATTERNS] counts it once
    for each, so every counter of the line stands at 2. *)
Lemma both_patterns_count_twice :
  is_Some (Re.search failed_password line_both)
  ∧ is_Some (Re.search invalid_user line_both)
  ∧ process_line ∅ no_counts line_both
    = Counters [("root", 2)] [("10.0.0.5", 2)] [("1900-06-22 08:00", 2)].
Proof.
  split_and!; [by eexists; vm_compute..|by vm_compute].
Qed.

(** ** The year of the hour labels *)

Lemma make_Some y m d hh mm ss dt :
  Datetime.make y m d hh mm ss = Some dt →
  dt = Datetime.Build y m d hh mm ss
  ∧ (1 ≤ m ≤ 12)%nat ∧ (1 ≤ d ≤ 31)%nat ∧ (hh ≤ 23)%nat.
Proof.
  unfold Datetime.make.
  destruct (_ && _) eqn:E; [|done]. intros [= <-].
  repeat (apply andb_true_iff in E as [E ?]).
  repeat match goal with
  | H : (_ <=? _)%nat = true |- _ => apply Nat.leb_le in H
  end.
  split; [done|]. split; [lia|]. split; [|lia]. split; [lia|].
  assert (Datetime.days_in_month y m ≤ 31)%nat; [|lia].
  unfold Datetime.days_in_month.
  do 12 (destruct m as [|m]; [try destruct (Datetime.is_leap y); lia|]). lia.
Qed.

Lemma strptime_default_year s dt :
  Datetime.strptime s = Some dt →
  Datetime.year dt = Datetime.default_year
  ∧ (1 ≤ Datetime.month dt ≤ 12)%nat ∧ (1 ≤ Datetime.day dt ≤ 31)%nat
  ∧ (Datetime.hour dt ≤ 23)%nat.
Proof.
  unfold Datetime.strptime. intros H.
  repeat match type of H with
  | match ?x with _ => _ end = Some _ => destruct x; try done
  end.
  apply make_Some in H as (-> & ? & ? & ?). simpl. split_and!; [done|lia..].
Qed.

Lemma hour_label_default_year line label :
  hour_label line = Some label → default_year_label label.
Proof.
  unfold hour_label. destruct (_ <? _)%nat; [done|].
  destruct (Datetime.strptime _) as [dt|] eqn:E; [|done]. intros [= <-].
  apply strptime_default_year in E as (Hy & Hm & Hd & Hh).
  exists (Datetime.month dt), (Datetime.day dt), (Datetime.hour dt).
  do 3 (split; [done|]). unfold Datetime.strftime. by rewrite Hy.
Qed.

Lemma events_of_hour w e :
  e ∈ events_of w → ∃ line, hour_label line = Some (ev_hour e).
Proof.
  unfold events_of. destruct (auth_log w) as [f|]; [|by intros ?%elem_of_nil].
  unfold counted_events. rewrite list_elem_of_filter, list_elem_of_bind.
  intros (_ & line & He & _). exists line. by apply line_events_hour.
Qed.

(** C2 (as the code has it): every hour label of the hourly view has the
    form [1900-MM-DD HH:00]; it carries the year [strptime] fills in when
    the format names none, whatever the clock of the host shows. *)
Theorem hourly_labels_default_year w label n :
  (label, n) ∈ hourly (compute_stats w) → default_year_label label.
Proof.
  rewrite compute_stats_events. simpl.
  rewrite (SortFacts.sorted_items_perm _). intros Hin.
  assert (label ∈ (count_keys Counter.empty (ev_hour <$> events_of w)).*1) as Hk.
  { apply list_elem_of_fmap. by exists (label, n). }
  rewrite count_keys_keys in Hk. apply list_elem_of_fmap in Hk as (e & -> & He).
  apply events_of_hour in He as (line & Hl).
  by eapply hour_label_default_year.
Qed.

(** The theorem at the log of [line_failed], read with a clock in 2024. *)
Lemma hourly_labels_default_year_witness :
  ("1900-06-22 08:00", 1)
    ∈ hourly (compute_stats (World 2024 CmdMissing (Some (Line line_failed Eof))))
  ∧ default_year_label "1900-06-22 08:00".
Proof.
  assert (("1900-06-22 08:00", 1)
    ∈ hourly (compute_stats (World 2024 CmdMissing (Some (Line line_failed Eof)))))
    as H by (vm_compute; apply list_elem_of_here).
  split; [exact H|].
  exact (hourly_labels_default_year _ _ _ H).
Defined.

(** C2, as stated, fails: with a clock in 2024 the line of 22 June 08:15:20
    is counted under [1900-06-22 08:00], not under the label of the
    current year, [2024-06-22 08:00]. *)
Lemma hour_label_ignores_clock :
  let w := World 2024 CmdMissing (Some (Line line_failed Eof)) in
  ∃ dt, Datetime.strptime "Jun 22 08:15:20" = Some dt
    ∧ label_in_year (clock_year w) dt = "2024-06-22 08:00"
    ∧ hourly (compute_stats w) = [("1900-06-22 08:00", 1)]
    ∧ hourly (compute_stats w) ≠ [(label_in_year (clock_year w) dt, 1)].
Proof.
  eexists. split; [by vm_compute|]. by vm_compute.
Qed.

(** ** Failures of the log *)

Lemma lines_read_log_of lines ending :
  lines_read (log_of lines ending) = lines ++ lines_read ending.
Proof. induction lines as [|l lines IH]; simpl; [done|]. by rewrite IH. Qed.

(** C3 (as the code has it): when the log cannot be opened all three views
    are empty; when a read fails after some lines, the handler keeps the
    counters as those lines left them, and the snapshot is the one of a log
    that ends where the failure struck: the fold of the lines read. *)
Theorem read_failure_keeps_lines_read y c lines :
  compute_stats (World y c None) = no_data
  ∧ compute_stats (World y c (Some (log_of lines ReadError)))
    = compute_stats (World y c (Some (log_of lines Eof)))
  ∧ compute_stats (World y c (Some (log_of lines ReadError)))
    = views (foldl (process_line (get_known_ips c)) no_counts lines).
Proof.
  split; [done|]. unfold compute_stats. simpl.
  assert (∀ ending st, lines_read ending = [] →
    read_loop (get_known_ips c) st (log_of lines ending)
    = foldl (process_line (get_known_ips c)) st lines) as H.
  { intros ending st Hend. revert st.
    induction lines as [|l lines IH]; intros st; simpl; [by destruct ending|].
    apply IH. }
  by rewrite !H.
Qed.

(** C3, as stated, fails: a read error after the first line leaves that
    line in all three views; the snapshot is not the empty one. *)
Lemma read_failure_partial_fold :
  compute_stats (World 2024 CmdMissing (Some (Line line_failed ReadError)))
  = Snapshot [("root", 1)] [("10.0.0.5", 1)] [("1900-06-22 08:00", 1)]
  ∧ compute_stats (World 2024 CmdMissing (Some (Line line_failed ReadError)))
    ≠ no_data.
Proof. by vm_compute. Qed.

(** ** The allowlist *)

Lemma top_keys n (c : Counter.t) x : x ∈ Counter.most_common n c → x ∈ c.
Proof.
  unfold Counter.most_common. intros (i & Hi & _)%elem_of_take.
  rewrite <-(SortFacts.sorted_desc_perm c). by eapply list_elem_of_lookup_2.
Qed.

Lemma events_of_counted w e :
  e ∈ events_of w → ev_ip e ∉ get_known_ips (last_i w).
Proof.
  unfold events_of. destruct (auth_log w) as [f|]; [|by intros ?%elem_of_nil].
  unfold counted_events, counted. rewrite list_elem_of_filter, bool_decide_eq_true.
  tauto.
Qed.

(** C4: events from allowlisted addresses count nowhere.  Two logs that
    differ only in such events give the same snapshot, and no allowlisted
    address is listed in the top-addresses view. *)
Theorem allowlisted_events_do_not_count y c f1 f2 :
  counted_events (get_known_ips c) (lines_read f1)
  = counted_events (get_known_ips c) (lines_read f2) →
  compute_stats (World y c (Some f1)) = compute_stats (World y c (Some f2))
  ∧ ∀ ip n, ip ∈ get_known_ips c →
      (ip, n) ∉ top_ips (compute_stats (World y c (Some f1))).
Proof.
  intros Heq. split.
  - rewrite !compute_stats_events. unfold events_of. simpl. by rewrite Heq.
  - intros ip n Hip Hin. rewrite compute_stats_events in Hin. simpl in Hin.
    apply top_keys in Hin.
    assert (ip ∈ (count_keys Counter.empty
                   (ev_ip <$> events_of (World y c (Some f1)))).*1) as Hk.
    { apply list_elem_of_fmap. by exists (ip, n). }
    rewrite count_keys_keys in Hk. apply list_elem_of_fmap in Hk as (e & -> & He).
    by apply events_of_counted in He.
Qed.

(** The theorem at a log whose two lines all come from 10.0.0.5, which the
    session history lists: the snapshot is the one of the empty log. *)
Lemma allowlisted_events_do_not_count_witness :
  let c := CmdExit 0 last_record in
  counted_events (get_known_ips c) (lines_read (Line line_failed (Line line_both Eof)))
  = counted_events (get_known_ips c) (lines_read Eof)
  ∧ compute_stats (World 2024 c (Some (Line line_failed (Line line_both Eof))))
    = compute_stats (World 2024 c (Some Eof))
  ∧ ∀ ip n, ip ∈ get_known_ips c →
      (ip, n) ∉ top_ips
        (compute_stats (World 2024 c (Some (Line line_failed (Line line_both Eof))))).
Proof.
  intros c.
  assert (counted_events (get_known_ips c)
            (lines_read (Line line_failed (Line line_both Eof)))
          = counted_events (get_known_ips c) (lines_read Eof)) as H
    by (by vm_compute).
  split; [exact H|].
  exact (allowlisted_events_do_not_count 2024 c _ _ H).
Defined.

(** ** A log of one line *)

Lemma pattern_event_None pat line :
  Re.search pat line = None → pattern_event pat line = None.
Proof. unfold pattern_event. by intros ->. Qed.

(** C5 (as the code has it): a single line whose first three tokens
    [strptime] accepts as a timestamp ([hour_label] gives its hour), that
    exactly one of the two patterns matches, from an address outside the
    allowlist, gives one entry of count 1 in each view. *)
Theorem single_line_single_match y c line user ip hour :
  hour_label line = Some hour →
  ip ∉ get_known_ips c →
  ((pattern_event failed_password line = Some (user, ip)
      ∧ Re.search invalid_user line = None)
   ∨ (Re.search failed_password line = None
      ∧ pattern_event invalid_user line = Some (user, ip))) →
  compute_stats (World y c (Some (Line line Eof)))
  = Snapshot [(user, 1)] [(ip, 1)] [(hour, 1)].
Proof.
  intros Hh Hip Hm. rewrite compute_stats_events.
  assert (events_of (World y c (Some (Line line Eof))) = [Event user ip hour])
    as ->.
  { unfold events_of, counted_events. simpl. rewrite (app_nil_r (line_events line)).
    unfold line_events, PATTERNS. rewrite Hh, !pattern_events_cons.
    destruct Hm as [[-> ->%pattern_event_None]|[->%pattern_event_None ->]];
      simpl; rewrite filter_cons, decide_True; try done;
      unfold counted; simpl; by apply bool_decide_eq_true. }
  done.
Qed.

(** The theorem at [line_failed], which only the first pattern matches. *)
Lemma single_line_single_match_witness :
  hour_label line_failed = Some "1900-06-22 08:00"
  ∧ ("10.0.0.5" ∉ get_known_ips CmdMissing)
  ∧ ((pattern_event failed_password line_failed = Some ("root", "10.0.0.5")
        ∧ Re.search invalid_user line_failed = None)
     ∨ (Re.search failed_password line_failed = None
        ∧ pattern_event invalid_user line_failed = Some ("root", "10.0.0.5")))
  ∧ compute_stats (World 2024 CmdMissing (Some (Line line_failed Eof)))
    = Snapshot [("root", 1)] [("10.0.0.5", 1)] [("1900-06-22 08:00", 1)].
Proof.
  assert (hour_label line_failed = Some "1900-06-22 08:00") as H1
    by (by vm_compute).
  assert ("10.0.0.5" ∉ get_known_ips CmdMissing) as H2
    by (simpl; apply not_elem_of_empty).
  assert ((pattern_event failed_password line_failed = Some ("root", "10.0.0.5")
             ∧ Re.search invalid_user line_failed = None)
          ∨ (Re.search failed_password line_failed = None
             ∧ pattern_event invalid_user line_failed = Some ("root", "10.0.0.5")))
    as H3 by (left; split; by vm_compute).
  split; [exact H1|]. split; [exact H2|]. split; [exact H3|].
  exact (single_line_single_match 2024 CmdMissing line_failed _ _ _ H1 H2 H3).
Defined.

(** C5, as stated, fails in two ways.  [line_both] matches a failure
    pattern, has a valid timestamp and an address outside the (empty)
    allowlist, yet the log of that one line gives counts of 2, not 1.
    [line_feb29] is matched by one pattern only and its timestamp has the
    form of the format (the expression of [strptime] consumes all of it),
    yet [strptime] refuses 29 February 1900 and the log of that one line
    gives empty views. *)
Lemma single_line_not_always_once :
  (pattern_event failed_password line_both = Some ("root", "10.0.0.5")
   ∧ hour_label line_both = Some "1900-06-22 08:00"
   ∧ ("10.0.0.5" ∉ get_known_ips CmdMissing)
   ∧ compute_stats (World 2024 CmdMissing (Some (Line line_both Eof)))
     = Snapshot [("root", 2)] [("10.0.0.5", 2)] [("1900-06-22 08:00", 2)]
   ∧ compute_stats (World 2024 CmdMissing (Some (Line line_both Eof)))
     ≠ Snapshot [("root", 1)] [("10.0.0.5", 1)] [("1900-06-22 08:00", 1)])
  ∧ (Str.join " " (take 3 (Str.split line_feb29)) = "Feb 29 08:15:20"
     ∧ Re.m_rest <$> Re.rmatch Datetime.format_regex "Feb 29 08:15:20" = Some ""
     ∧ Datetime.strptime "Feb 29 08:15:20" = None
     ∧ pattern_event failed_password line_feb29 = Some ("root", "10.0.0.5")
     ∧ Re.search invalid_user line_feb29 = None
     ∧ ("10.0.0.5" ∉ get_known_ips CmdMissing)
     ∧ compute_stats (World 2024 CmdMissing (Some (Line line_feb29 Eof)))
       = no_data
     ∧ ∀ hour, compute_stats (World 2024 CmdMissing (Some (Line line_feb29 Eof)))
               ≠ Snapshot [("root", 1)] [("10.0.0.5", 1)] [(hour, 1)]).
Proof.
  split; split_and!; by vm_compute.
Qed.

(** ** The shape of the views *)

Lemma count_keys_entry keys k c :
  (k, c) ∈ count_keys Counter.empty keys → k ∈ keys ∧ c = occurrences k keys.
Proof.
  intros Hin. split.
  - apply count_keys_keys, list_elem_of_fmap. by exists (k, c).
  - apply CounterFacts.elem_of_get in Hin; [|by apply count_keys_NoDup, NoDup_nil].
    by rewrite count_keys_get in Hin.
Qed.

Lemma remove_dups_keys keys :
  (count_keys Counter.empty keys).*1 ≡ₚ remove_dups keys.
Proof.
  apply NoDup_Permutation.
  - by apply count_keys_NoDup, NoDup_nil.
  - apply NoDup_remove_dups.
  - intros k. by rewrite count_keys_keys, elem_of_remove_dups.
Qed.

(** C6: the top-users and top-addresses views hold at most 10 entries; the
    hourly view holds every hour label of a counted event, once, in
    strictly ascending order of the labels. *)
Theorem views_capped_and_sorted w :
  (length (top_users (compute_stats w)) ≤ 10)%nat
  ∧ (length (top_ips (compute_stats w)) ≤ 10)%nat
  ∧ (hourly (compute_stats w)).*1 ≡ₚ remove_dups (ev_hour <$> events_of w)
  ∧ StronglySorted by_key_asc (hourly (compute_stats w)).
Proof.
  rewrite compute_stats_events. simpl. unfold Counter.most_common.
  rewrite !length_take. split_and!; [lia..| |].
  - by rewrite (SortFacts.sorted_items_perm _), remove_dups_keys.
  - by apply SortFacts.sorted_items_sorted, count_keys_NoDup, NoDup_nil.
Qed.

(** ** Runs that follow one another *)

Module ProcessFacts.

Lemma object_incr_same id k p :
  is_Some (objects p !! id) →
  object id (incr_object id k p) = Counter.incr k (object id p).
Proof.
  intros [c Hc]. unfold object, incr_object. simpl.
  by rewrite lookup_alter_eq, Hc.
Qed.

Lemma object_incr_other id id' k p :
  id ≠ id' → object id (incr_object id' k p) = object id p.
Proof.
  intros Hne. unfold object, incr_object. simpl.
  by rewrite lookup_alter_ne.
Qed.

Lemma incr_object_is_Some id id' k p :
  is_Some (objects p !! id) → is_Some (objects (incr_object id' k p) !! id).
Proof. intros H. unfold incr_object. simpl. by apply lookup_alter_is_Some. Qed.

Lemma live_incr users ips hours id k p :
  live users ips hours p → live users ips hours (incr_object id k p).
Proof.
  intros (? & ? & ? & ? & ? & ?).
  repeat split; try done; by apply incr_object_is_Some.
Qed.

Lemma run_pattern_locals known users ips hours line hour p pat :
  live users ips hours p →
  live users ips hours (run_pattern known users ips hours line hour p pat)
  ∧ locals users ips hours (run_pattern known users ips hours line hour p pat)
    = apply_pattern known line hour (locals users ips hours p) pat.
Proof.
  intros Hlive. unfold run_pattern, apply_pattern.
  destruct (Re.search pat line) as [m|]; [|done].
  destruct (Re.group "ip" _) as [ip|]; [|done].
  destruct (Re.group "user" _) as [user|]; [|done].
  destruct (decide (ip ∈ known)); [done|].
  split; [by do 3 apply live_incr|].
  destruct Hlive as (Hui & Huh & Hih & Hu & Hi & Hh).
  unfold locals. simpl. f_equal.
  - rewrite !object_incr_other by done. by apply object_incr_same.
  - rewrite (object_incr_other ips hours) by done.
    rewrite object_incr_same by (by apply incr_object_is_Some).
    by rewrite object_incr_other.
  - rewrite object_incr_same by (by do 2 apply incr_object_is_Some).
    by rewrite !object_incr_other.
Qed.

Lemma run_line_locals known users ips hours p line :
  live users ips hours p →
  live users ips hours (run_line known users ips hours p line)
  ∧ locals users ips hours (run_line known users ips hours p line)
    = process_line known (locals users ips hours p) line.
Proof.
  unfold run_line, process_line. destruct (hour_label line) as [hour|]; [|done].
  generalize PATTERNS. intros pats. revert p.
  induction pats as [|pat pats IH]; intros p Hlive; [done|]. simpl.
  destruct (run_pattern_locals known users ips hours line hour p pat Hlive)
    as [Hlive' <-].
  by apply IH.
Qed.

Lemma run_loop_locals known users ips hours p f :
  live users ips hours p →
  locals users ips hours (run_loop known users ips hours p f)
  = read_loop known (locals users ips hours p) f.
Proof.
  revert p. induction f as [|line rest IH|]; intros p Hlive; [done| |done].
  simpl.
  destruct (run_line_locals known users ips hours p line Hlive) as [Hlive' <-].
  by apply IH.
Qed.

(** The objects a call creates are three, exist, and are empty, whatever
    the process held before. *)
Lemma new_counters_live p :
  let p3 := (new_counter (new_counter (new_counter p).2).2).2 in
  live (next_id p) (S (next_id p)) (S (S (next_id p))) p3
  ∧ locals (next_id p) (S (next_id p)) (S (S (next_id p))) p3 = no_counts.
Proof.
  simpl. split.
  - repeat split; try lia; simpl.
    + rewrite !lookup_insert_ne by lia. by rewrite lookup_insert_eq.
    + rewrite lookup_insert_ne by lia. by rewrite lookup_insert_eq.
    + by rewrite lookup_insert_eq.
  - unfold locals, object. simpl.
    rewrite !lookup_insert_eq, !(lookup_insert_ne _ (S (S _))) by lia.
    rewrite !lookup_insert_eq, !(lookup_insert_ne _ (S _)) by lia.
    by rewrite !lookup_insert_eq.
Qed.

(** A call returns the snapshot of [compute_stats], in whatever process it
    runs. *)
Lemma compute_stats_in_snapshot w p : (compute_stats_in w p).1 = compute_stats w.
Proof.
  unfold compute_stats_in, compute_stats, views. simpl.
  destruct (new_counters_live p) as [Hlive Hempty]. simpl in Hlive, Hempty.
  destruct (auth_log w) as [f|].
  - pose proof (run_loop_locals (get_known_ips (last_i w)) _ _ _ _ f Hlive) as H.
    rewrite Hempty in H. rewrite <-H. done.
  - by rewrite <-Hempty.
Qed.

End ProcessFacts.

(** C7: two calls of [compute_stats] that follow one another in the same
    process, over the same log content and the same resolved allowlist,
    return snapshots that are equal in all three views: the second call
    creates its own counters and reads the log from its first line, so
    nothing the first call (or any earlier one) left in the process reaches
    its result. *)
Theorem compute_stats_runs_agree w1 w2 p :
  auth_log w1 = auth_log w2 →
  get_known_ips (last_i w1) = get_known_ips (last_i w2) →
  let first := compute_stats_in w1 p in
  let second := compute_stats_in w2 first.2 in
  top_users first.1 = top_users second.1
  ∧ top_ips first.1 = top_ips second.1
  ∧ hourly first.1 = hourly second.1.
Proof.
  intros Hlog Hips first second. subst first second.
  rewrite !ProcessFacts.compute_stats_in_snapshot.
  assert (compute_stats w1 = compute_stats w2) as ->; [|done].
  unfold compute_stats. by rewrite Hlog, Hips.
Qed.

(** The theorem at a process that already holds counters, one of them
    under the identity the call uses first, and at two hosts that differ in
    the clock and in the session history but not in the addresses the
    history lists. *)
Lemma compute_stats_runs_agree_witness :
  let p := Process 5 {[ 0 := [("stale", 7)]; 5 := [("root", 40)] ]} in
  let w1 := World 2024 (CmdExit 0 "admin pts/1 10.0.0.9 Sat Jun 22")
              (Some (Line line_failed (Line line_both Eof))) in
  let w2 := World 2025
              (CmdExit 0 ("reboot system" ++ LF
                            ++ "admin pts/1 10.0.0.9 Sat Jun 22" ++ LF
                            ++ "admin pts/1 10.0.0.9 Sat Jun 22" ++ LF)%string)
              (Some (Line line_failed (Line line_both Eof))) in
  auth_log w1 = auth_log w2
  ∧ get_known_ips (last_i w1) = get_known_ips (last_i w2)
  ∧ let first := compute_stats_in w1 p in
    let second := compute_stats_in w2 first.2 in
    top_users first.1 = top_users second.1
    ∧ top_ips first.1 = top_ips second.1
    ∧ hourly first.1 = hourly second.1.
Proof.
  intros p w1 w2.
  assert (auth_log w1 = auth_log w2) as H1 by reflexivity.
  assert (get_known_ips (last_i w1) = get_known_ips (last_i w2)) as H2
    by (vm_compute; reflexivity).
  split; [exact H1|]. split; [exact H2|].
  exact (compute_stats_runs_agree w1 w2 p H1 H2).
Defined.

(** ** The session history *)

Lemma counted_events_empty lines :
  counted_events ∅ lines = lines ≫= line_events.
Proof.
  unfold counted_events. induction (lines ≫= line_events) as [|e es IH]; [done|].
  rewrite filter_cons_True, IH; [done|].
  unfold counted. apply bool_decide_eq_true, not_elem_of_empty.
Qed.

(** C8: when [last -i] is missing, fails, or exits with a non-zero status,
    [get_known_ips] returns the empty set, and the run counts every event
    of the log: no address is filtered. *)
Theorem get_known_ips_unavailable r :
  r = CmdMissing ∨ r = CmdError
    ∨ (∃ status output, r = CmdExit (S status) output) →
  get_known_ips r = ∅
  ∧ ∀ y f, events_of (World y r (Some f)) = lines_read f ≫= line_events.
Proof.
  intros Hr.
  assert (get_known_ips r = ∅) as Hempty.
  { by destruct Hr as [->|[->|(status & output & ->)]]. }
  split; [done|]. intros y f. unfold events_of. simpl.
  by rewrite Hempty, counted_events_empty.
Qed.

(** The theorem at a [last -i] that prints a record and exits with status 1. *)
Lemma get_known_ips_unavailable_witness :
  (CmdExit 1 last_record = CmdMissing ∨ CmdExit 1 last_record = CmdError
     ∨ (∃ status output, CmdExit 1 last_record = CmdExit (S status) output))
  ∧ get_known_ips (CmdExit 1 last_record) = ∅
  ∧ ∀ y f, events_of (World y (CmdExit 1 last_record) (Some f))
           = lines_read f ≫= line_events.
Proof.
  assert (CmdExit 1 last_record = CmdMissing ∨ CmdExit 1 last_record = CmdError
            ∨ (∃ status output, CmdExit 1 last_record = CmdExit (S status) output))
    as H by (right; right; exists 0, last_record; reflexivity).
  split; [exact H|].
  exact (get_known_ips_unavailable _ H).
Defined.

(** ** The most common keys *)




(** ** The views agree on the number of events *)

Lemma total_perm (l1 l2 : list (string * nat)) :
  l1 ≡ₚ l2 → Counter.total l1 = Counter.total l2.
Proof. unfold Counter.total. by intros ->. Qed.

Lemma total_app (l1 l2 : list (string * nat)) :
  Counter.total (l1 ++ l2) = Counter.total l1 + Counter.total l2.
Proof. unfold Counter.total. by rewrite map_app, sum_list_with_app. Qed.

Lemma most_common_total n (c : Counter.t) :
  Counter.total (Counter.most_common n c) ≤ Counter.total c.
Proof.
  unfold Counter.most_common.
  rewrite <-(total_perm _ _ (SortFacts.sorted_desc_perm c)).
  rewrite <-(take_drop n (Counter.sorted_desc c)) at 2.
  rewrite total_app. lia.
Qed.

Lemma most_common_positive n (c : Counter.t) :
  Forall (λ x : string * nat, (1 ≤ x.2)%nat) c →
  Forall (λ x : string * nat, (1 ≤ x.2)%nat) (Counter.most_common n c).
Proof.
  rewrite !Forall_forall. intros Hc x Hx%top_keys. by apply Hc.
Qed.

(** C10: every counted event adds one to each of the three counters, so
    the counts of the hourly view sum to the number of counted events,
    every count that is listed is at least 1, and the counts of the
    top-users view and of the top-addresses view sum to no more than those
    of the hourly view. *)
Theorem views_consistent w :
  Counter.total (hourly (compute_stats w)) = length (events_of w)
  ∧ Forall (λ x : string * nat, (1 ≤ x.2)%nat)
      (top_users (compute_stats w) ++ top_ips (compute_stats w)
         ++ hourly (compute_stats w))
  ∧ (Counter.total (top_users (compute_stats w))
       ≤ Counter.total (hourly (compute_stats w)))%nat
  ∧ (Counter.total (top_ips (compute_stats w))
       ≤ Counter.total (hourly (compute_stats w)))%nat.
Proof.
  rewrite compute_stats_events. simpl.
  rewrite (total_perm _ _ (SortFacts.sorted_items_perm _)).
  rewrite count_keys_total, length_fmap. simpl.
  pose proof (most_common_total 10 (count_keys Counter.empty (ev_user <$> events_of w))) as Hu.
  pose proof (most_common_total 10 (count_keys Counter.empty (ev_ip <$> events_of w))) as Hi.
  rewrite count_keys_total, length_fmap in Hu, Hi. simpl in Hu, Hi.
  split_and!; [done| |done..].
  rewrite !Forall_app. split_and!.
  - by apply most_common_positive, count_keys_positive.
  - by apply most_common_positive, count_keys_positive.
  - rewrite (SortFacts.sorted_items_perm _). by apply count_keys_positive.
Qed.

(** * Further properties of the code *)

(** ** The matcher consumes words of the language *)

Module LangFacts.
Import Re.

Lemma app_nil_l (s : string) : ("" ++ s)%string = s.
Proof. reflexivity. Qed.

Lemma app_cons c (s t : string) :
  (String c s ++ t)%string = String c (s ++ t)%string.
Proof. reflexivity. Qed.

Lemma app_assoc (a b c : string) : ((a ++ b) ++ c = a ++ (b ++ c))%string.
Proof.
  induction a as [|x a IH]; [done|]. by rewrite !app_cons, IH.
Qed.

Lemma length_app (a b : string) :
  String.length (a ++ b)%string = String.length a + String.length b.
Proof.
  induction a as [|x a IH]; [done|]. rewrite app_cons. simpl. by rewrite IH.
Qed.

Lemma take_app (w s : string) :
  Str.take (String.length (w ++ s)%string - String.length s) (w ++ s)%string = w.
Proof.
  rewrite length_app. replace (_ + _ - _) with (String.length w) by lia.
  induction w as [|x w IH]; [by destruct s|].
  rewrite app_cons. simpl. by rewrite IH.
Qed.

Lemma plus_sound {A} p s (k : string → option A) x :
  plus p s k = Some x →
  ∃ w s', s = (w ++ s')%string ∧ run_of p w = true ∧ k s' = Some x.
Proof.
  induction s as [|c s IH]; simpl; [done|].
  destruct (p c) eqn:Hc; [|done].
  destruct (plus p s k) as [y|] eqn:E.
  - intros [= ->]. destruct (IH eq_refl) as (w & s' & -> & Hw & Hk).
    exists (String c w), s'. split_and!; [done| |done].
    simpl. rewrite Hc. simpl. by destruct w.
  - intros Hk. exists (String c ""), s. split_and!; [done| |done].
    simpl. by rewrite Hc.
Qed.

(** A successful run consumed a word of the language, and every group it
    bound holds a text of the shape its sub-expression allows. *)
Lemma run_sound {A} Q r s g (k : string → groups → option A) x :
  groups_in Q r →
  Forall (λ nv, Q nv.1 nv.2) g →
  run r s g k = Some x →
  ∃ w s' g', s = (w ++ s')%string ∧ lang r w
    ∧ Forall (λ nv, Q nv.1 nv.2) g' ∧ k s' g' = Some x.
Proof.
  revert s g k. induction r as [|p|r1 IH1 r2 IH2|r1 IH1 r2 IH2|p|n r1 IH1];
    intros s g k HQ Hg; simpl.
  - intros Hk. exists "", s, g. split_and!; [done|constructor|done..].
  - destruct s as [|c s]; [done|]. destruct (p c) eqn:Hc; [|done].
    intros Hk. exists (String c ""), s, g. split_and!; [done|by constructor|done..].
  - destruct HQ as [HQ1 HQ2].
    intros (w1 & s1 & g1 & -> & Hw1 & Hg1 & H2)%IH1; [|done..].
    apply IH2 in H2 as (w2 & s2 & g2 & -> & Hw2 & Hg2 & Hk); [|done..].
    exists (w1 ++ w2)%string, s2, g2.
    split_and!; [by rewrite app_assoc|by constructor|done..].
  - destruct HQ as [HQ1 HQ2]. destruct (run r1 s g k) as [y|] eqn:E.
    + intros [= ->].
      apply IH1 in E as (w & s' & g' & -> & Hw & Hg' & Hk); [|done..].
      exists w, s', g'. split_and!; [done|by apply lang_alt_l|done..].
    + intros (w & s' & g' & -> & Hw & Hg' & Hk)%IH2; [|done..].
      exists w, s', g'. split_and!; [done|by apply lang_alt_r|done..].
  - intros (w & s' & -> & Hw & Hk)%plus_sound.
    exists w, s', g. split_and!; [done|by constructor|done..].
  - destruct HQ as [HQ1 HQ2].
    intros (w & s' & g' & -> & Hw & Hg' & Hk)%IH1; [|done..].
    rewrite take_app in Hk. eexists w, s', _.
    split_and!; [done|by constructor| |exact Hk].
    constructor; [by apply HQ1|done].
Qed.

Lemma group_Forall (Q : string → string → Prop) g n v :
  Forall (λ nv, Q nv.1 nv.2) g → group n g = Some v → Q n v.
Proof.
  induction 1 as [|[n' v'] g Hnv Hg IH]; simpl; [done|].
  destruct (String.eqb_spec n n') as [->|]; [|done]. by intros [= <-].
Qed.

Lemma rmatch_sound Q r s m :
  groups_in Q r → rmatch r s = Some m →
  ∃ w, s = (w ++ m_rest m)%string ∧ lang r w
    ∧ ∀ n v, group n (m_groups m) = Some v → Q n v.
Proof.
  intros HQ (w & s' & g' & -> & Hw & Hg & [= <-])%(run_sound Q); [|done..].
  exists w. split_and!; [done..|]. intros n v. by apply group_Forall.
Qed.

Lemma search_sound Q r s m :
  groups_in Q r → search r s = Some m →
  ∃ pre w, s = (pre ++ w ++ m_rest m)%string ∧ lang r w
    ∧ ∀ n v, group n (m_groups m) = Some v → Q n v.
Proof.
  intros HQ. induction s as [|c s IH]; simpl.
  - destruct (rmatch r "") as [m'|] eqn:E; [|done]. intros [= ->].
    destruct (rmatch_sound Q _ _ _ HQ E) as (w & Hs & Hw & Hg).
    by exists "", w.
  - destruct (rmatch r (String c s)) as [m'|] eqn:E.
    + intros [= ->]. destruct (rmatch_sound Q _ _ _ HQ E) as (w & Hs & Hw & Hg).
      by exists "", w.
    + intros (pre & w & -> & Hw & Hg)%IH. by exists (String c pre), w.
Qed.

Lemma lang_Lit s w : lang (Lit s) w → w = s.
Proof.
  revert w. induction s as [|c s IH]; simpl; intros w Hw.
  - by inversion Hw.
  - inversion Hw as [| |r1 r2 w1 w2 H1 H2| | | |]; subst.
    inversion H1 as [|p c' Hc| | | | |]; subst.
    apply Ascii.eqb_eq in Hc as <-. simpl. f_equal. by apply IH.
Qed.

Lemma lang_plus_inv p w : lang (Plus p) w → run_of p w = true.
Proof. by inversion 1. Qed.

Lemma lang_ipv4 w : lang ipv4 w → dotted_quad w.
Proof.
  unfold ipv4. simpl. intros H.
  repeat match goal with
  | H : lang (Cat _ _) _ |- _ => inversion H; clear H; subst
  | H : lang (Chr _) _ |- _ => inversion H; clear H; subst
  | H : lang Eps _ |- _ => inversion H; clear H; subst
  | H : lang (Plus _) _ |- _ => apply lang_plus_inv in H
  | H : Ascii.eqb _ _ = true |- _ => apply Ascii.eqb_eq in H; subst
  end.
  match goal with
  | |- dotted_quad (?a ++ _ ++ ?b ++ _ ++ ?c ++ _ ++ ?d)%string =>
      exists a, b, c, d
  end.
  split_and!; [done..|reflexivity].
Qed.

End LangFacts.

(** The groups of both failure patterns have the shape the patterns spell
    out. *)
Lemma PATTERNS_groups pat : pat ∈ PATTERNS → groups_in capture_shape pat.
Proof.
  unfold PATTERNS. rewrite !elem_of_cons, elem_of_nil.
  assert (∀ w, lang (Re.Plus Chars.is_word) w → capture_shape "user" w) as Hu.
  { intros w Hw%LangFacts.lang_plus_inv. by split. }
  assert (∀ w, lang ipv4 w → capture_shape "ip" w) as Hi.
  { intros w Hw%LangFacts.lang_ipv4. by split. }
  intros [->|[->|[]]]; simpl;
    repeat match goal with
    | |- _ ∧ _ => split
    | |- True => exact I
    | |- ∀ w, _ → capture_shape "user" w => exact Hu
    | |- ∀ w, _ → capture_shape "ip" w => exact Hi
    end.
Qed.

Lemma pattern_event_shape pat line user ip :
  pat ∈ PATTERNS → pattern_event pat line = Some (user, ip) →
  run_of Chars.is_word user = true ∧ dotted_quad ip.
Proof.
  intros Hpat. unfold pattern_event.
  destruct (Re.search pat line) as [m|] eqn:E; [|done].
  destruct (LangFacts.search_sound _ _ _ _ (PATTERNS_groups _ Hpat) E)
    as (_ & _ & _ & _ & Hg).
  destruct (Re.group "ip" _) as [i|] eqn:Ei; [|done].
  destruct (Re.group "user" _) as [u|] eqn:Eu; [|done].
  intros [= <- <-]. split.
  - by apply (Hg _ _ Eu).
  - by apply (Hg _ _ Ei).
Qed.

(** ** [get_known_ips]: which addresses are known *)

Lemma known_ips_step_elem ips line ip :
  ip ∈ known_ips_step ips line
  ↔ ip ∈ ips ∨ (Str.split line !! 2 = Some ip ∧ is_Some (Re.rmatch ipv4 ip)).
Proof.
  unfold known_ips_step.
  destruct (Str.split line !! 2) as [p|];
    [|by split; [left|intros [?|[[=] _]]]].
  destruct (Re.rmatch ipv4 p) as [m|] eqn:E.
  - rewrite elem_of_union, elem_of_singleton. split.
    + intros [?| ->]; [by left|]. right. split; [done|]. by rewrite E.
    + intros [?|[[= ->] _]]; by auto.
  - split; [by left|]. intros [?|[[= ->] [m Hm]]]; [done|congruence].
Qed.

Lemma known_ips_foldl ips lines ip :
  ip ∈ foldl known_ips_step ips lines
  ↔ ip ∈ ips ∨ ∃ line, line ∈ lines ∧ Str.split line !! 2 = Some ip
                  ∧ is_Some (Re.rmatch ipv4 ip).
Proof.
  revert ips. induction lines as [|l lines IH]; intros ips; simpl.
  - split; [by left|]. intros [?|(line & []%elem_of_nil & _)]. done.
  - rewrite IH, known_ips_step_elem. split.
    + intros [[?|[??]]|(line & ? & ? & ?)].
      * by left.
      * right. exists l. split; [by left|done].
      * right. exists line. split; [by right|done].
    + intros [?|(line & [->|?]%elem_of_cons & ? & ?)].
      * by left; left.
      * by left; right.
      * right. by exists line.
Qed.

Lemma get_known_ips_elem output ip :
  ip ∈ get_known_ips (CmdExit 0 output)
  ↔ ∃ line, line ∈ Str.splitlines output ∧ Str.split line !! 2 = Some ip
      ∧ is_Some (Re.rmatch ipv4 ip).
Proof.
  unfold get_known_ips. simpl. rewrite known_ips_foldl. split.
  - by intros [[]%not_elem_of_empty|?].
  - by right.
Qed.

(** X1: an address is known exactly when it is the third whitespace-
    delimited token of some record of the session history and a dotted quad
    can be read at its start; records with fewer than three tokens, or with
    another third token, add nothing. *)
Theorem get_known_ips_third_tokens output ip :
  ip ∈ get_known_ips (CmdExit 0 output)
  ↔ ∃ line, line ∈ Str.splitlines output ∧ Str.split line !! 2 = Some ip
      ∧ is_Some (Re.rmatch ipv4 ip).
Proof. apply get_known_ips_elem. Qed.

(** X2: the allowlist depends on the records as a set, not on their order
    or number: a history whose records all occur in another one resolves to
    a subset of the other's addresses. *)
Theorem get_known_ips_more_records output1 output2 :
  (∀ line, line ∈ Str.splitlines output1 → line ∈ Str.splitlines output2) →
  get_known_ips (CmdExit 0 output1) ⊆ get_known_ips (CmdExit 0 output2).
Proof.
  intros Hsub ip. rewrite !get_known_ips_elem.
  intros (line & Hl & Ht & Hm). exists line. by auto.
Qed.

(** The theorem at a history of one record and the history that repeats
    this record after one without an address. *)
Lemma get_known_ips_more_records_witness :
  (∀ line, line ∈ Str.splitlines last_record →
           line ∈ Str.splitlines ("reboot system" ++ LF ++ last_record ++ LF
                                    ++ last_record)%string)
  ∧ get_known_ips (CmdExit 0 last_record)
    ⊆ get_known_ips (CmdExit 0 ("reboot system" ++ LF ++ last_record ++ LF
                                  ++ last_record)%string).
Proof.
  assert (∀ line, line ∈ Str.splitlines last_record →
           line ∈ Str.splitlines ("reboot system" ++ LF ++ last_record ++ LF
                                    ++ last_record)%string) as H.
  { intros line. vm_compute Str.splitlines.
    intros ->%list_elem_of_singleton. apply elem_of_cons. right.
    apply elem_of_cons. by left. }
  split; [exact H|].
  exact (get_known_ips_more_records _ _ H).
Defined.



(** ** [compute_stats]: lines that are skipped, lines that repeat *)

Lemma events_of_log_of y c lines ending :
  events_of (World y c (Some (log_of lines ending)))
  = counted_events (get_known_ips c) (lines ++ lines_read ending).
Proof. unfold events_of. simpl. by rewrite lines_read_log_of. Qed.

Lemma counted_events_app known l1 l2 :
  counted_events known (l1 ++ l2)
  = counted_events known l1 ++ counted_events known l2.
Proof. unfold counted_events. by rewrite bind_app, filter_app. Qed.

Lemma counted_events_cons known line lines :
  counted_events known (line :: lines)
  = filter (λ e, counted known e = true) (line_events line)
      ++ counted_events known lines.
Proof. unfold counted_events. by rewrite bind_cons, filter_app. Qed.

Lemma line_events_skipped line :
  length (Str.split line) < 3
  ∨ Datetime.strptime (Str.join " " (take 3 (Str.split line))) = None
  ∨ (Re.search failed_password line = None
     ∧ Re.search invalid_user line = None) →
  line_events line = [].
Proof.
  unfold line_events, hour_label. intros [Hlen|[Hts|[H1 H2]]].
  - apply Nat.ltb_lt in Hlen. by rewrite Hlen.
  - rewrite Hts. by destruct (_ <? _).
  - destruct (_ <? _); [done|]. destruct (Datetime.strptime _); [|done].
    unfold PATTERNS. rewrite !pattern_events_cons.
    by rewrite (pattern_event_None _ _ H1), (pattern_event_None _ _ H2).
Qed.

(** X4: the timestamp check and the pattern check are both mandatory.  A
    line with fewer than three tokens, a line whose first three tokens are
    no timestamp, and a line that neither pattern matches are skipped:
    wherever such a line stands in the log, the snapshot is the one of the
    log without it. *)
Theorem skipped_line_changes_nothing y c before after ending line :
  length (Str.split line) < 3
  ∨ Datetime.strptime (Str.join " " (take 3 (Str.split line))) = None
  ∨ (Re.search failed_password line = None
     ∧ Re.search invalid_user line = None) →
  compute_stats (World y c (Some (log_of (before ++ line :: after) ending)))
  = compute_stats (World y c (Some (log_of (before ++ after) ending))).
Proof.
  intros Hskip%line_events_skipped.
  rewrite !compute_stats_events, !events_of_log_of.
  rewrite <-!app_assoc, !counted_events_app. simpl.
  by rewrite counted_events_cons, Hskip.
Qed.

(** The theorem at a line that the first pattern matches but that starts
    with no timestamp, between two lines that count. *)
Lemma skipped_line_changes_nothing_witness :
  let line := "sshd: Failed password for root from 10.0.0.9 port 22" in
  (length (Str.split line) < 3
   ∨ Datetime.strptime (Str.join " " (take 3 (Str.split line))) = None
   ∨ (Re.search failed_password line = None
      ∧ Re.search invalid_user line = None))
  ∧ compute_stats
      (World 2024 CmdMissing
         (Some (log_of ([line_failed] ++ line :: [line_both]) Eof)))
    = compute_stats
        (World 2024 CmdMissing (Some (log_of ([line_failed] ++ [line_both]) Eof))).
Proof.
  intros line.
  assert (length (Str.split line) < 3
          ∨ Datetime.strptime (Str.join " " (take 3 (Str.split line))) = None
          ∨ (Re.search failed_password line = None
             ∧ Re.search invalid_user line = None)) as H
    by (right; left; by vm_compute).
  split; [exact H|].
  exact (skipped_line_changes_nothing 2024 CmdMissing _ _ Eof line H).
Defined.

Lemma line_events_one known line user ip hour :
  hour_label line = Some hour →
  ip ∉ known →
  ((pattern_event failed_password line = Some (user, ip)
      ∧ Re.search invalid_user line = None)
   ∨ (Re.search failed_password line = None
      ∧ pattern_event invalid_user line = Some (user, ip))) →
  filter (λ e, counted known e = true) (line_events line)
  = [Event user ip hour].
Proof.
  intros Hh Hip Hm. unfold line_events, PATTERNS.
  rewrite Hh, !pattern_events_cons.
  destruct Hm as [[-> ->%pattern_event_None]|[->%pattern_event_None ->]];
    simpl; rewrite filter_cons, decide_True; try done;
    unfold counted; simpl; by apply bool_decide_eq_true.
Qed.

Lemma count_keys_replicate k m n :
  count_keys [(k, m)] (replicate n k) = [(k, m + n)].
Proof.
  revert m. induction n as [|n IH]; intros m; simpl.
  - by rewrite Nat.add_0_r.
  - rewrite String.eqb_refl, IH. do 2 f_equal. lia.
Qed.

(** X5: a log of [n] copies of a line that exactly one pattern matches,
    with a valid timestamp and an address outside the allowlist, gives the
    count [n] for its user, its address and its hour, and nothing else. *)
Theorem repeated_line_counts y c line user ip hour n :
  hour_label line = Some hour →
  ip ∉ get_known_ips c →
  ((pattern_event failed_password line = Some (user, ip)
      ∧ Re.search invalid_user line = None)
   ∨ (Re.search failed_password line = None
      ∧ pattern_event invalid_user line = Some (user, ip))) →
  compute_stats (World y c (Some (log_of (replicate (S n) line) Eof)))
  = Snapshot [(user, S n)] [(ip, S n)] [(hour, S n)].
Proof.
  intros Hh Hip Hm.
  rewrite compute_stats_events, events_of_log_of. simpl lines_read.
  rewrite app_nil_r.
  assert (∀ k, counted_events (get_known_ips c) (replicate k line)
               = replicate k (Event user ip hour)) as ->.
  { intros k. induction k as [|k IH]; [done|]. simpl.
    by rewrite counted_events_cons, IH, (line_events_one _ _ _ _ _ Hh Hip Hm). }
  rewrite !fmap_replicate. simpl.
  rewrite !count_keys_replicate. done.
Qed.

(** The theorem at three copies of [line_failed]. *)
Lemma repeated_line_counts_witness :
  hour_label line_failed = Some "1900-06-22 08:00"
  ∧ ("10.0.0.5" ∉ get_known_ips CmdMissing)
  ∧ ((pattern_event failed_password line_failed = Some ("root", "10.0.0.5")
        ∧ Re.search invalid_user line_failed = None)
     ∨ (Re.search failed_password line_failed = None
        ∧ pattern_event invalid_user line_failed = Some ("root", "10.0.0.5")))
  ∧ compute_stats
      (World 2024 CmdMissing (Some (log_of (replicate 3 line_failed) Eof)))
    = Snapshot [("root", 3)] [("10.0.0.5", 3)] [("1900-06-22 08:00", 3)].
Proof.
  assert (hour_label line_failed = Some "1900-06-22 08:00") as H1
    by (by vm_compute).
  assert ("10.0.0.5" ∉ get_known_ips CmdMissing) as H2
    by (simpl; apply not_elem_of_empty).
  assert ((pattern_event failed_password line_failed = Some ("root", "10.0.0.5")
             ∧ Re.search invalid_user line_failed = None)
          ∨ (Re.search failed_password line_failed = None
             ∧ pattern_event invalid_user line_failed = Some ("root", "10.0.0.5")))
    as H3 by (left; split; by vm_compute).
  split; [exact H1|]. split; [exact H2|]. split; [exact H3|].
  exact (repeated_line_counts 2024 CmdMissing line_failed _ _ _ 2 H1 H2 H3).
Defined.

(** ** [compute_stats]: what the views hold *)

Lemma count_keys_entry_iff keys k c :
  (k, c) ∈ count_keys Counter.empty keys ↔ k ∈ keys ∧ c = occurrences k keys.
Proof.
  split; [apply count_keys_entry|]. intros [Hk ->].
  apply count_keys_keys, list_elem_of_fmap in Hk as ([k' c] & -> & Hin).
  simpl. by pose proof Hin as [_ <-]%count_keys_entry.
Qed.

Lemma count_keys_items_NoDup keys : NoDup (count_keys Counter.empty keys).
Proof. eapply NoDup_fmap_1, count_keys_NoDup, NoDup_nil. done. Qed.

Lemma occurrences_perm k keys keys' :
  keys ≡ₚ keys' → occurrences k keys = occurrences k keys'.
Proof. unfold occurrences. by intros ->. Qed.

Lemma count_keys_perm keys keys' :
  keys ≡ₚ keys' →
  count_keys Counter.empty keys ≡ₚ count_keys Counter.empty keys'.
Proof.
  intros Hp. apply NoDup_Permutation; [apply count_keys_items_NoDup..|].
  intros [k c]. rewrite !count_keys_entry_iff.
  by rewrite (occurrences_perm k _ _ Hp), Hp.
Qed.

Lemma by_key_asc_strict x y : by_key_asc x y → by_key_asc y x → x = y.
Proof.
  unfold by_key_asc, str_lt. intros H1 H2.
  rewrite String.compare_antisym, H1 in H2. done.
Qed.

Lemma sorted_items_perm_eq (c c' : Counter.t) :
  NoDup c.*1 → NoDup c'.*1 → c ≡ₚ c' →
  Counter.sorted_items c = Counter.sorted_items c'.
Proof.
  intros Hc Hc' Hp. apply (StronglySorted_unique_strong by_key_asc).
  - intros x1 x2 _ _. apply by_key_asc_strict.
  - by apply SortFacts.sorted_items_sorted.
  - by apply SortFacts.sorted_items_sorted.
  - by rewrite !SortFacts.sorted_items_perm.
Qed.

Lemma counted_events_perm known lines lines' :
  lines ≡ₚ lines' → counted_events known lines ≡ₚ counted_events known lines'.
Proof. unfold counted_events. by intros ->. Qed.

(** X6: the hourly view does not depend on the order of the lines of the
    log: two logs with the same lines in any order give the same hourly
    view, label by label and count by count. *)
Theorem hourly_ignores_line_order y c lines lines' :
  lines ≡ₚ lines' →
  hourly (compute_stats (World y c (Some (log_of lines Eof))))
  = hourly (compute_stats (World y c (Some (log_of lines' Eof)))).
Proof.
  intros Hp. rewrite !compute_stats_events, !events_of_log_of. simpl.
  rewrite !app_nil_r.
  apply sorted_items_perm_eq; [by apply count_keys_NoDup, NoDup_nil..|].
  apply count_keys_perm. by rewrite (counted_events_perm _ _ _ Hp).
Qed.

(** The theorem at a log of two lines from different hours and the log
    with the two lines swapped. *)
Lemma hourly_ignores_line_order_witness :
  let later := "Jun 22 09:01:02 host sshd: Invalid user bob from 10.0.0.7" in
  [line_failed; later] ≡ₚ [later; line_failed]
  ∧ hourly (compute_stats
              (World 2024 CmdMissing (Some (log_of [line_failed; later] Eof))))
    = hourly (compute_stats
                (World 2024 CmdMissing (Some (log_of [later; line_failed] Eof)))).
Proof.
  intros later.
  assert ([line_failed; later] ≡ₚ [later; line_failed]) as H
    by apply Permutation_swap.
  split; [exact H|].
  exact (hourly_ignores_line_order 2024 CmdMissing _ _ H).
Defined.

(** X7: the hourly view holds an entry for a label exactly when some
    counted event falls in that hour, and its count is the number of the
    counted events of that hour. *)
Theorem hourly_counts_events_per_hour w label n :
  (label, n) ∈ hourly (compute_stats w)
  ↔ label ∈ ev_hour <$> events_of w
    ∧ n = occurrences label (ev_hour <$> events_of w).
Proof.
  rewrite compute_stats_events. simpl.
  by rewrite (SortFacts.sorted_items_perm _), count_keys_entry_iff.
Qed.

Lemma most_common_keys_NoDup n (c : Counter.t) :
  NoDup c.*1 → NoDup (Counter.most_common n c).*1.
Proof.
  intros Hc. unfold Counter.most_common.
  eapply sublist_NoDup; [|apply fmap_sublist, sublist_take].
  by rewrite (SortFacts.sorted_desc_perm c).
Qed.

Lemma most_common_length n keys :
  length (Counter.most_common n (count_keys Counter.empty keys))
  = n `min` length (remove_dups keys).
Proof.
  unfold Counter.most_common.
  rewrite length_take, (SortFacts.sorted_desc_perm _).
  by rewrite <-(length_fmap fst), (remove_dups_keys keys).
Qed.

(** X8: no key is listed twice in a view, and the top-users and
    top-addresses views hold all distinct users and addresses of the
    counted events when there are at most 10 of them, and exactly 10
    otherwise. *)
Theorem views_list_each_key_once w :
  NoDup (top_users (compute_stats w)).*1
  ∧ NoDup (top_ips (compute_stats w)).*1
  ∧ NoDup (hourly (compute_stats w)).*1
  ∧ length (top_users (compute_stats w))
    = 10 `min` length (remove_dups (ev_user <$> events_of w))
  ∧ length (top_ips (compute_stats w))
    = 10 `min` length (remove_dups (ev_ip <$> events_of w)).
Proof.
  rewrite compute_stats_events. simpl. split_and!.
  - by apply most_common_keys_NoDup, count_keys_NoDup, NoDup_nil.
  - by apply most_common_keys_NoDup, count_keys_NoDup, NoDup_nil.
  - rewrite (SortFacts.sorted_items_perm _). by apply count_keys_NoDup, NoDup_nil.
  - apply most_common_length.
  - apply most_common_length.
Qed.

Lemma events_of_shape w e :
  e ∈ events_of w →
  run_of Chars.is_word (ev_user e) = true ∧ dotted_quad (ev_ip e).
Proof.
  unfold events_of. destruct (auth_log w) as [f|]; [|by intros ?%elem_of_nil].
  unfold counted_events. rewrite list_elem_of_filter, list_elem_of_bind.
  intros (_ & line & He & _). unfold line_events in He.
  destruct (hour_label line) as [hour|]; [|by apply elem_of_nil in He].
  unfold pattern_events in He. apply list_elem_of_omap in He as (pat & Hpat & Hp).
  destruct (pattern_event pat line) as [[u i]|] eqn:E; simplify_eq/=.
  by eapply pattern_event_shape.
Qed.

(** X9: on an ASCII log, every user listed in the top-users view is a
    non-empty run of the characters [A-Za-z0-9_], and every address listed
    in the top-addresses view is a dotted quad of the digits [0-9].  (On
    ASCII text these are the characters Python's [\w] and [\d] accept.) *)
Theorem top_keys_have_pattern_shape w :
  (∀ f line, auth_log w = Some f → line ∈ lines_read f → is_ascii line = true) →
  (∀ user n, (user, n) ∈ top_users (compute_stats w) →
     run_of Chars.is_word user = true)
  ∧ (∀ ip n, (ip, n) ∈ top_ips (compute_stats w) → dotted_quad ip).
Proof.
  intros _. rewrite compute_stats_events. simpl. split.
  - intros user n [Hk _]%top_keys%count_keys_entry.
    apply list_elem_of_fmap in Hk as (e & -> & He).
    by apply events_of_shape in He as [? _].
  - intros ip n [Hk _]%top_keys%count_keys_entry.
    apply list_elem_of_fmap in Hk as (e & -> & He).
    by apply events_of_shape in He as [_ ?].
Qed.

(** The theorem at the log of [line_failed] and [line_both], both ASCII. *)
Lemma top_keys_have_pattern_shape_witness :
  let w := World 2024 CmdMissing (Some (Line line_failed (Line line_both Eof))) in
  (∀ f line, auth_log w = Some f → line ∈ lines_read f → is_ascii line = true)
  ∧ (∀ user n, (user, n) ∈ top_users (compute_stats w) →
       run_of Chars.is_word user = true)
  ∧ (∀ ip n, (ip, n) ∈ top_ips (compute_stats w) → dotted_quad ip).
Proof.
  intros w.
  assert (∀ f line, auth_log w = Some f → line ∈ lines_read f →
            is_ascii line = true) as H.
  { intros f line [= <-]. simpl. rewrite !elem_of_cons, elem_of_nil.
    intros [->|[->|[]]]; by vm_compute. }
  split; [exact H|].
  exact (top_keys_have_pattern_shape w H).
Defined.

(** ** [compute_stats]: the dates of the hourly view *)

Lemma make_calendar y m d hh mm ss dt :
  Datetime.make y m d hh mm ss = Some dt →
  dt = Datetime.Build y m d hh mm ss
  ∧ 1 ≤ m ≤ 12 ∧ 1 ≤ d ≤ Datetime.days_in_month y m ∧ hh ≤ 23.
Proof.
  unfold Datetime.make.
  destruct (_ && _) eqn:E; [|done]. intros [= <-].
  repeat (apply andb_true_iff in E as [E ?]).
  repeat match goal with
  | H : (_ <=? _) = true |- _ => apply Nat.leb_le in H
  end.
  split; [done|]. lia.
Qed.

Lemma strptime_calendar s dt :
  Datetime.strptime s = Some dt →
  Datetime.year dt = Datetime.default_year
  ∧ 1 ≤ Datetime.month dt ≤ 12
  ∧ 1 ≤ Datetime.day dt
      ≤ Datetime.days_in_month Datetime.default_year (Datetime.month dt)
  ∧ Datetime.hour dt ≤ 23.
Proof.
  unfold Datetime.strptime. intros H.
  repeat match type of H with
  | match ?x with _ => _ end = Some _ => destruct x; try done
  end.
  by apply make_calendar in H as (-> & ? & ? & ?).
Qed.

Lemma hour_label_calendar line label :
  hour_label line = Some label → calendar_label label.
Proof.
  unfold hour_label. destruct (_ <? _); [done|].
  destruct (Datetime.strptime _) as [dt|] eqn:E; [|done]. intros [= <-].
  apply strptime_calendar in E as (Hy & Hm & Hd & Hh).
  exists (Datetime.month dt), (Datetime.day dt), (Datetime.hour dt).
  do 3 (split; [done|]). unfold Datetime.strftime. by rewrite Hy.
Qed.

Lemma digit_value_digit k :
  Chars.digit_value (Datetime.digit k) = k mod 10.
Proof.
  unfold Chars.digit_value, Chars.code, Datetime.digit.
  pose proof (Nat.mod_upper_bound k 10).
  rewrite nat_ascii_embedding by lia. lia.
Qed.

Lemma pad2_value n a b :
  n < 100 → Datetime.pad2 n = String a (String b "") →
  n = 10 * Chars.digit_value a + Chars.digit_value b.
Proof.
  unfold Datetime.pad2. intros Hn [= <- <-].
  rewrite !digit_value_digit.
  pose proof (Nat.div_mod_eq n 10). pose proof (Nat.mod_upper_bound n 10).
  assert (n / 10 < 10) by (apply Nat.Div0.div_lt_upper_bound; lia).
  rewrite (Nat.mod_small (n / 10)) by done. lia.
Qed.

(** X10: every label of the hourly view names a day of the calendar of
    1900, which is no leap year: lines dated 29 February (and 30 February,
    31 April, ...) fail to parse and are never counted. *)
Theorem hourly_labels_are_calendar_days w label n :
  (label, n) ∈ hourly (compute_stats w) →
  calendar_label label ∧ ∀ rest, label ≠ ("1900-02-29" ++ rest)%string.
Proof.
  rewrite compute_stats_events. simpl.
  rewrite (SortFacts.sorted_items_perm _). intros Hin.
  assert (label ∈ (count_keys Counter.empty (ev_hour <$> events_of w)).*1) as Hk.
  { apply list_elem_of_fmap. by exists (label, n). }
  rewrite count_keys_keys in Hk. apply list_elem_of_fmap in Hk as (e & -> & He).
  apply events_of_hour in He as (line & Hl).
  apply hour_label_calendar in Hl as Hcal. split; [done|].
  destruct Hcal as (m & d & h & Hm & Hd & Hh & ->). intros rest Heq.
  unfold Datetime.pad2 at 1 2 in Heq.
  rewrite !LangFacts.app_cons, !LangFacts.app_nil_l in Heq.
  injection Heq as Hm1 Hm2 Hd1 Hd2 _.
  change (Datetime.digit (m / 10) = "0"%char) in Hm1.
  change (Datetime.digit (d / 10) = "2"%char) in Hd1.
  assert (m = 2) as ->.
  { apply (pad2_value m "0" "2"); [lia|]. unfold Datetime.pad2.
    by rewrite Hm1, Hm2. }
  assert (Datetime.days_in_month Datetime.default_year 2 = 28) as Hfeb
    by reflexivity.
  assert (d = 29) as ->.
  { apply (pad2_value d "2" "9"); [lia|]. unfold Datetime.pad2.
    by rewrite Hd1, Hd2. }
  lia.
Qed.

(** The theorem at the log of [line_failed]. *)
Lemma hourly_labels_are_calendar_days_witness :
  ("1900-06-22 08:00", 1)
    ∈ hourly (compute_stats (World 2024 CmdMissing (Some (Line line_failed Eof))))
  ∧ calendar_label "1900-06-22 08:00"
  ∧ ∀ rest, "1900-06-22 08:00" ≠ ("1900-02-29" ++ rest)%string.
Proof.
  assert (("1900-06-22 08:00", 1)
    ∈ hourly (compute_stats (World 2024 CmdMissing (Some (Line line_failed Eof)))))
    as H by (vm_compute; apply list_elem_of_here).
  split; [exact H|].
  exact (hourly_labels_are_calendar_days _ _ _ H).
Defined.

(** ** [compute_stats]: growing logs and growing allowlists *)

Lemma hourly_entry w label n :
  (label, n) ∈ hourly (compute_stats w)
  ↔ label ∈ ev_hour <$> events_of w
    ∧ n = occurrences label (ev_hour <$> events_of w).
Proof.
  rewrite compute_stats_events. simpl.
  by rewrite (SortFacts.sorted_items_perm _), count_keys_entry_iff.
Qed.

Lemma occurrences_app k keys keys' :
  occurrences k (keys ++ keys') = occurrences k keys + occurrences k keys'.
Proof. unfold occurrences. by rewrite filter_app, length_app. Qed.

Lemma occurrences_sublist k keys keys' :
  keys `sublist_of` keys' → occurrences k keys ≤ occurrences k keys'.
Proof.
  unfold occurrences. induction 1 as [|x l1 l2 _ IH|x l1 l2 _ IH]; [done| |].
  - rewrite !filter_cons. destruct (decide (x = k)); simpl; lia.
  - rewrite filter_cons. destruct (decide (x = k)); simpl; lia.
Qed.

(** X11: lines appended to the log never lower an hourly count and never
    remove an hour: every entry of the hourly view of a log is found, with
    a count at least as large, in the hourly view of the longer log. *)
Theorem appended_lines_keep_hourly_counts y c lines more label n :
  (label, n) ∈ hourly (compute_stats (World y c (Some (log_of lines Eof)))) →
  ∃ n', n ≤ n'
    ∧ (label, n')
        ∈ hourly (compute_stats (World y c (Some (log_of (lines ++ more) Eof)))).
Proof.
  rewrite hourly_entry, events_of_log_of. simpl lines_read.
  rewrite app_nil_r. intros [Hin ->].
  exists (occurrences label
            (ev_hour <$> counted_events (get_known_ips c) (lines ++ more))).
  rewrite hourly_entry, events_of_log_of. simpl lines_read.
  rewrite app_nil_r, counted_events_app, fmap_app, occurrences_app.
  split; [lia|]. split; [|done]. apply elem_of_app. by left.
Qed.

(** The theorem at the log of [line_failed], to which [line_both] is
    appended: the count of the hour goes from 1 to 3. *)
Lemma appended_lines_keep_hourly_counts_witness :
  ("1900-06-22 08:00", 1)
    ∈ hourly (compute_stats
                (World 2024 CmdMissing (Some (log_of [line_failed] Eof))))
  ∧ ∃ n', 1 ≤ n'
      ∧ ("1900-06-22 08:00", n')
          ∈ hourly (compute_stats
                      (World 2024 CmdMissing
                         (Some (log_of ([line_failed] ++ [line_both]) Eof)))).
Proof.
  assert (("1900-06-22 08:00", 1)
    ∈ hourly (compute_stats
                (World 2024 CmdMissing (Some (log_of [line_failed] Eof)))))
    as H by (vm_compute; apply list_elem_of_here).
  split; [exact H|].
  exact (appended_lines_keep_hourly_counts 2024 CmdMissing _ [line_both] _ _ H).
Defined.

Lemma counted_events_sublist known known' lines :
  known ⊆ known' →
  counted_events known' lines `sublist_of` counted_events known lines.
Proof.
  intros Hsub. unfold counted_events.
  rewrite <-(list_filter_filter_l (λ e, counted known' e = true)
                                 (λ e, counted known e = true)).
  - apply sublist_filter.
  - intros e. unfold counted. rewrite !bool_decide_eq_true. set_solver.
Qed.

(** X12: a larger allowlist never raises an hourly count and never adds an
    hour: on the same log, every entry of the hourly view under the larger
    allowlist is found, with a count at least as large, under the smaller
    one. *)
Theorem larger_allowlist_lowers_hourly_counts w w' label n' :
  auth_log w = auth_log w' →
  get_known_ips (last_i w) ⊆ get_known_ips (last_i w') →
  (label, n') ∈ hourly (compute_stats w') →
  ∃ n, n' ≤ n ∧ (label, n) ∈ hourly (compute_stats w).
Proof.
  intros Hlog Hsub. rewrite hourly_entry. intros [Hin ->].
  assert ((ev_hour <$> events_of w') `sublist_of` (ev_hour <$> events_of w))
    as Hev.
  { unfold events_of. rewrite Hlog. destruct (auth_log w') as [f|]; [|done].
    by apply fmap_sublist, counted_events_sublist. }
  exists (occurrences label (ev_hour <$> events_of w)).
  rewrite hourly_entry. split; [by apply occurrences_sublist|].
  split; [|done].
  eapply elem_of_submseteq; [exact Hin|]. by apply sublist_submseteq.
Qed.

(** The theorem at a log of [line_failed] and a line from 10.0.0.7, read
    once without an allowlist and once with 10.0.0.5 allowed. *)
Lemma larger_allowlist_lowers_hourly_counts_witness :
  let later := "Jun 22 08:31:02 host sshd: Invalid user bob from 10.0.0.7" in
  let w := World 2024 CmdMissing (Some (log_of [line_failed; later] Eof)) in
  let w' := World 2024 (CmdExit 0 last_record)
              (Some (log_of [line_failed; later] Eof)) in
  auth_log w = auth_log w'
  ∧ get_known_ips (last_i w) ⊆ get_known_ips (last_i w')
  ∧ ("1900-06-22 08:00", 1) ∈ hourly (compute_stats w')
  ∧ ∃ n, 1 ≤ n ∧ ("1900-06-22 08:00", n) ∈ hourly (compute_stats w).
Proof.
  intros later w w'.
  assert (auth_log w = auth_log w') as H1 by reflexivity.
  assert (get_known_ips (last_i w) ⊆ get_known_ips (last_i w')) as H2
    by (simpl; apply empty_subseteq).
  assert (("1900-06-22 08:00", 1) ∈ hourly (compute_stats w')) as H3
    by (vm_compute; apply list_elem_of_here).
  split; [exact H1|]. split; [exact H2|]. split; [exact H3|].
  exact (larger_allowlist_lowers_hourly_counts w w' _ _ H1 H2 H3).
Defined.

(** ** [renderSummary]: the cards of the page *)

Lemma foldl_sum_total acc (l : list (string * nat)) :
  foldl (λ sum u, sum + u.2) acc l = acc + Counter.total l.
Proof.
  unfold Counter.total. revert acc.
  induction l as [|x l IH]; intros acc; simpl; [lia|]. rewrite IH. lia.
Qed.

Lemma total_zero (l : list (string * nat)) :
  Forall (λ x : string * nat, 1 ≤ x.2) l → Counter.total l = 0 → l = [].
Proof.
  unfold Counter.total. destruct 1 as [|x l Hx _]; [done|]. simpl. lia.
Qed.

(** X13: the 'Total Fails' card shows the sum of the top-users counts: it
    never exceeds the number of counted events and equals it exactly when
    the events name at most 10 distinct users; the 'Unique IPs' card shows
    the number of distinct addresses capped at 10; the 'Hours' card shows
    the number of distinct hours.  (The bound keeps the sum of the script
    exact.) *)
Theorem summary_cards w :
  (N.of_nat (length (events_of w)) < 2 ^ 53)%N →
  let cards := renderSummary (compute_stats w) in
  totalFails cards ≤ length (events_of w)
  ∧ (totalFails cards = length (events_of w)
     ↔ length (remove_dups (ev_user <$> events_of w)) ≤ 10)
  ∧ uniqueIPs cards = 10 `min` length (remove_dups (ev_ip <$> events_of w))
  ∧ hours cards = length (remove_dups (ev_hour <$> events_of w)).
Proof.
  intros _ cards. subst cards. unfold renderSummary.
  rewrite compute_stats_events. simpl. rewrite foldl_sum_total. simpl.
  set (c := count_keys Counter.empty (ev_user <$> events_of w)).
  assert (Counter.total c = length (events_of w)) as Htotal.
  { unfold c. by rewrite count_keys_total, length_fmap. }
  assert (Counter.total (Counter.sorted_desc c) = Counter.total c) as Hsorted
    by apply total_perm, SortFacts.sorted_desc_perm.
  assert (length (Counter.sorted_desc c)
          = length (remove_dups (ev_user <$> events_of w))) as Hlen.
  { rewrite (SortFacts.sorted_desc_perm c). unfold c.
    by rewrite <-(length_fmap fst), (remove_dups_keys _). }
  pose proof (most_common_total 10 c) as Hle.
  split_and!.
  - lia.
  - rewrite <-Htotal, <-Hlen. unfold Counter.most_common. split.
    + intros Heq.
      pose proof (total_app (take 10 (Counter.sorted_desc c))
                            (drop 10 (Counter.sorted_desc c))) as Happ.
      rewrite take_drop, Hsorted in Happ.
      assert (drop 10 (Counter.sorted_desc c) = []) as Hdrop.
      { apply total_zero; [|lia].
        apply Forall_drop. rewrite (SortFacts.sorted_desc_perm c).
        by apply count_keys_positive. }
      apply (f_equal length) in Hdrop. rewrite length_drop in Hdrop.
      simpl in Hdrop. lia.
    + intros Hshort. by rewrite take_ge, Hsorted.
  - apply most_common_length.
  - rewrite (SortFacts.sorted_items_perm _).
    by rewrite <-(length_fmap fst), (remove_dups_keys _).
Qed.

(** The theorem at the log of [line_failed] and [line_both]: three events
    of one user. *)
Lemma summary_cards_witness :
  let w := World 2024 CmdMissing (Some (log_of [line_failed; line_both] Eof)) in
  (N.of_nat (length (events_of w)) < 2 ^ 53)%N
  ∧ let cards := renderSummary (compute_stats w) in
    totalFails cards ≤ length (events_of w)
    ∧ (totalFails cards = length (events_of w)
       ↔ length (remove_dups (ev_user <$> events_of w)) ≤ 10)
    ∧ uniqueIPs cards = 10 `min` length (remove_dups (ev_ip <$> events_of w))
    ∧ hours cards = length (remove_dups (ev_hour <$> events_of w)).
Proof.
  intros w.
  assert ((N.of_nat (length (events_of w)) < 2 ^ 53)%N) as H by (by vm_compute).
  split; [exact H|].
  exact (summary_cards w H).
Defined.

(** ** The reported user and address stand in the line *)

Module MatchFacts.
Import Re.

Lemma run_matches {A} r s g (k : string → groups → option A) x :
  run r s g k = Some x →
  ∃ w s' g', s = (w ++ s')%string ∧ matches r w g g' ∧ k s' g' = Some x.
Proof.
  revert s g k. induction r as [|p|r1 IH1 r2 IH2|r1 IH1 r2 IH2|p|n r1 IH1];
    intros s g k; simpl.
  - intros Hk. exists "", s, g. split_and!; [done|constructor|done].
  - destruct s as [|c s]; [done|]. destruct (p c) eqn:Hc; [|done].
    intros Hk. exists (String c ""), s, g. split_and!; [done|by constructor|done].
  - intros (w1 & s1 & g1 & -> & Hw1 & H2)%IH1.
    apply IH2 in H2 as (w2 & s2 & g2 & -> & Hw2 & Hk).
    exists (w1 ++ w2)%string, s2, g2.
    split_and!; [by rewrite LangFacts.app_assoc|by econstructor|done].
  - destruct (run r1 s g k) as [y|] eqn:E.
    + intros [= ->]. apply IH1 in E as (w & s' & g' & -> & Hw & Hk).
      exists w, s', g'. split_and!; [done|by apply matches_alt_l|done].
    + intros (w & s' & g' & -> & Hw & Hk)%IH2.
      exists w, s', g'. split_and!; [done|by apply matches_alt_r|done].
  - intros (w & s' & -> & Hw & Hk)%LangFacts.plus_sound.
    exists w, s', g. split_and!; [done|by constructor|done].
  - intros (w & s' & g' & -> & Hw & Hk)%IH1.
    rewrite LangFacts.take_app in Hk. eexists w, s', _.
    split_and!; [done|by constructor|exact Hk].
Qed.

Lemma search_matches r s m :
  search r s = Some m →
  ∃ pre w, s = (pre ++ w ++ m_rest m)%string ∧ matches r w [] (m_groups m).
Proof.
  assert (∀ s, rmatch r s = Some m →
            ∃ w, s = (w ++ m_rest m)%string ∧ matches r w [] (m_groups m)) as Hr.
  { intros s0 (w & s' & g' & -> & Hw & [= <-])%run_matches. by exists w. }
  induction s as [|c s IH]; simpl.
  - destruct (rmatch r "") as [m'|] eqn:E; [|done]. intros [= ->].
    destruct (Hr _ E) as (w & Hs & Hw). by exists "", w.
  - destruct (rmatch r (String c s)) as [m'|] eqn:E.
    + intros [= ->]. destruct (Hr _ E) as (w & Hs & Hw). by exists "", w.
    + intros (pre & w & -> & Hw)%IH. by exists (String c pre), w.
Qed.

Ltac invert_matches :=
  repeat match goal with
  | H : matches (Cat _ _) _ _ _ |- _ => inversion H; clear H; subst
  | H : matches (Chr _) _ _ _ |- _ => inversion H; clear H; subst
  | H : matches Eps _ _ _ |- _ => inversion H; clear H; subst
  | H : matches (Plus _) _ _ _ |- _ => inversion H; clear H; subst
  | H : matches (Grp _ _) _ _ _ |- _ => inversion H; clear H; subst
  | H : matches (Alt _ _) _ _ _ |- _ => inversion H; clear H; subst
  | H : Ascii.eqb _ _ = true |- _ => apply Ascii.eqb_eq in H; subst
  end.

Lemma matches_failed_password w g :
  matches failed_password w [] g →
  ∃ user ip port,
    w = ("Failed password for " ++ user ++ " from " ++ ip ++ port)%string
    ∧ g = [("ip", ip); ("user", user)].
Proof.
  unfold failed_password, ipv4, Opt. simpl. intros H. invert_matches.
  - eexists _, _, _. split; [|reflexivity]. reflexivity.
  - eexists _, _, _. split; [|reflexivity]. reflexivity.
Qed.

Lemma matches_invalid_user w g :
  matches invalid_user w [] g →
  ∃ user ip,
    w = ("Invalid user " ++ user ++ " from " ++ ip)%string
    ∧ g = [("ip", ip); ("user", user)].
Proof.
  unfold invalid_user, ipv4. simpl. intros H. invert_matches.
  eexists _, _. split; [|reflexivity]. reflexivity.
Qed.

End MatchFacts.

(** X14: the user and the address a pattern reports are read from the line
    itself: when the first pattern reports them the line holds the text
    [Failed password for <user> from <address>], and when the second one
    does it holds [Invalid user <user> from <address>]. *)
Theorem reported_user_and_address_stand_in_line line user ip :
  (pattern_event failed_password line = Some (user, ip) →
   ∃ pre post,
     line = (pre ++ "Failed password for " ++ user ++ " from " ++ ip ++ post)%string)
  ∧ (pattern_event invalid_user line = Some (user, ip) →
     ∃ pre post,
       line = (pre ++ "Invalid user " ++ user ++ " from " ++ ip ++ post)%string).
Proof.
  unfold pattern_event. split.
  - destruct (Re.search failed_password line) as [m|] eqn:E; [|done].
    apply MatchFacts.search_matches in E as (pre & w & -> & Hw).
    apply MatchFacts.matches_failed_password in Hw as (u & i & port & -> & ->).
    simpl. intros [= <- <-]. exists pre, (port ++ Re.m_rest m)%string.
    by rewrite !LangFacts.app_assoc.
  - destruct (Re.search invalid_user line) as [m|] eqn:E; [|done].
    apply MatchFacts.search_matches in E as (pre & w & -> & Hw).
    apply MatchFacts.matches_invalid_user in Hw as (u & i & -> & ->).
    simpl. intros [= <- <-]. exists pre, (Re.m_rest m).
    by rewrite !LangFacts.app_assoc.
Qed.

(** ** Which members of the allowlist can filter an event *)







